(** * httpmirror: the mirror handler and its cache coordination

    A shallow embedding of [mirror.go].  The request resolver
    ([ServeHTTP]) and the decisions of [cacheResponse] and [cacheFile]
    are functions; the handler goroutines, the populate goroutines, the
    in-flight map [mut], the completion channels and the remote store
    form a transition system whose steps are the statements of
    [cacheResponse] that touch shared state or call out. *)

From stdpp Require Import gmap strings list fin_maps.
From Stdlib Require Import ZArith Ascii String Strings.Byte.

Open Scope string_scope.
Open Scope Z_scope.

(** ** Go strings *)

Module strings.

(** [strings.HasSuffix]: [len(s) >= len(suffix) && s[len(s)-len(suffix):] == suffix]. *)
Definition HasSuffix (s suffix : string) : bool :=
  (String.length suffix <=? String.length s)%nat &&
  String.eqb
    (substring (String.length s - String.length suffix) (String.length suffix) s)
    suffix.

(** [strings.Contains]: some suffix of [s] starts with [substr]. *)
Fixpoint Contains (s substr : string) : bool :=
  String.prefix substr s ||
  match s with
  | EmptyString => false
  | String _ s' => Contains s' substr
  end.

(** [strings.Split(s, sep)] for a separator of one byte, as [ServeHTTP]
    calls it; the result always has at least one element. *)
Fixpoint Split (s : string) (sep : ascii) : list string :=
  match s with
  | EmptyString => [EmptyString]
  | String c s' =>
      if Ascii.eqb c sep then EmptyString :: Split s' sep
      else match Split s' sep with
           | [] => [String c EmptyString]
           | w :: ws => String c w :: ws
           end
  end.

(** [strings.Join(elems, sep)]. *)
Definition Join (elems : list string) (sep : string) : string :=
  String.concat sep elems.

End strings.

(** [s[n:]] on a string. *)
Definition slice_from (n : nat) (s : string) : string :=
  substring n (String.length s - n) s.

(** [s[:n]] on a string. *)
Definition slice_to (n : nat) (s : string) : string :=
  substring 0 n s.

(** ** Go errors *)

(** The error values the handler tells apart: the two context
    sentinels, the package's [ErrNotOK], any other error (by its
    message), and an error wrapping another one ([%w]). *)
Inductive error :=
| Canceled
| DeadlineExceeded
| ErrNotOK
| ErrOther (msg : string)
| Wrap (msg : string) (inner : error).

Definition is_sentinel (e target : error) : bool :=
  match e, target with
  | Canceled, Canceled => true
  | DeadlineExceeded, DeadlineExceeded => true
  | ErrNotOK, ErrNotOK => true
  | ErrOther a, ErrOther b => String.eqb a b
  | _, _ => false
  end.

(** [errors.Is]: walks the [Unwrap] chain. *)
Fixpoint errors_Is (e target : error) : bool :=
  match e with
  | Wrap _ inner => errors_Is inner target
  | _ => is_sentinel e target
  end.

(** ** Requests and responses *)

Record URL := { Scheme : string; UHost : string; UPath : string }.

(** The fields of [*http.Request] that [ServeHTTP] reads and rewrites. *)
Record Request := { Method : string; Host : string; RURL : URL }.

Inductive Response :=
| HttpError (code : Z) (msg : string)   (* http.Error(w, msg, code) *)
| HttpRedirect (url : string) (code : Z)  (* http.Redirect(w, r, url, code) *)
| NotFoundResponse                      (* m.notFoundResponse(w, r) *)
| Proxied (status : Z) (header : list (string * list string)) (body : list byte)
          (failure : option string).
    (* directResponse: the headers set, WriteHeader(status) unless 200, the
       bytes io.Copy wrote, and the text given to http.Error when it failed *)

Definition StatusFound : Z := 302.
Definition StatusForbidden : Z := 403.
Definition StatusMethodNotAllowed : Z := 405.
Definition StatusInternalServerError : Z := 500.
Definition StatusOK : Z := 200.

(** ** The handler's configuration *)

(** [RemoteCache] records whether the field is non-nil (the store itself
    is part of the system state below); [RedirectLinks] is [None] for a
    nil function.  [Logger], [Client], [ProxyDial] and [NotFound] do not
    influence which response kind is produced and are left out. *)
Record MirrorHandler := {
  RemoteCache : bool;
  RedirectLinks : option (string -> string * bool);
  BaseDomain : string;
  CheckSyncTimeout : Z;
  HostFromFirstPath : bool;
  BlockSuffix : list string
}.

(** Where [ServeHTTP] hands the request over after resolving it. *)
Inductive Route :=
| Respond (resp : Response)
| ToDirect (r : Request)
| ToCache (r : Request).

(** [err.Error()] of a non-nil error.  The text of [ErrNotOK] is
    declared in a file of the package that is not at hand, so it is a
    parameter; a wrapping error carries its whole formatted text. *)
Definition Error (ErrNotOK_text : string) (e : error) : string :=
  match e with
  | Canceled => "context canceled"
  | DeadlineExceeded => "context deadline exceeded"
  | ErrNotOK => ErrNotOK_text
  | ErrOther msg => msg
  | Wrap msg _ => msg
  end.

(** [m.errorResponse(w, r, err)]: [err.Error()] is evaluated first, and
    on a nil [err] that call panics ([None]). *)
Definition errorResponse (ErrNotOK_text : string) (err : option error) : option Response :=
  match err with
  | None => None
  | Some e => Some (HttpError StatusInternalServerError (Error ErrNotOK_text e))
  end.

(** ** The request resolver: [ServeHTTP] up to the hand-over *)

Section Resolver.

(** [s3utils.IsValidDomain], from the minio-go library. *)
Variable IsValidDomain : string -> bool.
Variable m : MirrorHandler.

(** Lines 70-81: the host and path a request resolves to, [None] when
    first-path mode leaves an empty remainder. *)
Definition resolveHostPath (host path : string) : option (string * string) :=
  if HostFromFirstPath m then
    let paths := strings.Split (slice_from 1 path) "/"%char in
    let host := hd EmptyString paths in
    let path := "/" ++ strings.Join (tl paths) "/" in
    if String.eqb path "/" then None else Some (host, path)
  else Some (host, path).

(** Lines 88-94: the base-domain suffix is required and stripped. *)
Definition stripBaseDomain (host : string) : option string :=
  if negb (String.eqb (BaseDomain m) EmptyString) then
    if negb (strings.HasSuffix host (BaseDomain m)) then None
    else Some (slice_to (String.length host - String.length (BaseDomain m)) host)
  else Some host.

Definition ServeHTTP (r : Request) : Route :=
  if negb (String.eqb (Method r) "GET") && negb (String.eqb (Method r) "HEAD") then
    Respond (HttpError StatusMethodNotAllowed "Method Not Allowed")
  else
    let path := UPath (RURL r) in
    if existsb (strings.HasSuffix path) (BlockSuffix m) then
      Respond (HttpError StatusForbidden "Forbidden")
    else if (String.length path =? 0)%nat || strings.HasSuffix path "/" then
      Respond NotFoundResponse
    else
      match resolveHostPath (Host r) path with
      | None => Respond NotFoundResponse
      | Some (host, path) =>
          if negb (strings.Contains host ".") || negb (IsValidDomain host) then
            Respond NotFoundResponse
          else
            match stripBaseDomain host with
            | None => Respond NotFoundResponse
            | Some uhost =>
                let r' := {| Method := Method r; Host := host;
                             RURL := {| Scheme := "https"; UHost := uhost; UPath := path |} |} in
                if negb (RemoteCache m) || negb (bool_decide (is_Some (RedirectLinks m)))
                then ToDirect r' else ToCache r'
            end
      end.

End Resolver.

(** ** Decisions of [cacheResponse], [cacheFile] and [directResponse] *)

(** [io.LimitReader(body, n)] read to the end. *)
Definition LimitReader (body : list byte) (n : Z) : list byte :=
  take (Z.to_nat n) body.

(** Line 178: whether a hit whose origin probe succeeded is trusted. *)
Definition trustCache (cacheSize sourceSize : Z) : bool :=
  negb (cacheSize =? 0) && ((sourceSize <=? 0) || (sourceSize =? cacheSize)).

(** Lines 222-231: the reader handed to [Put], or [ErrNotOK]. *)
Definition cacheFileBody (contentLength : Z) (resp : list byte) : error + list byte :=
  if contentLength =? 0 then inl ErrNotOK
  else if 0 <? contentLength then inr (LimitReader resp contentLength)
  else inr resp.

(** Lines 201-211: the response for the populate's result. *)
Definition populateResponse (ErrNotOK_text : string) (u : string) (err : option error)
  : option Response :=
  match err with
  | Some e =>
      if errors_Is e ErrNotOK then Some NotFoundResponse
      else errorResponse ErrNotOK_text (Some e)
  | None => Some (HttpRedirect u StatusFound)
  end.

Definition ignoreHeader : list string := ["Connection"; "Server"].

(** What [m.client().Do(r)] returns with a nil error: the status, the
    headers, the declared length, the bytes the body yields when read,
    and the error that ends the body ([None] for [io.EOF]), delivered by
    a read of its own after the last byte. *)
Record OriginResponse := {
  StatusCode : Z;
  Header : list (string * list string);
  ContentLength : Z;
  Body : list byte;
  BodyErr : option error
}.

(** The error on reading [io.LimitReader(body, n)] to its end: once [n]
    bytes have been read the limited reader ends by itself; otherwise
    the body's own end is met. *)
Definition LimitReader_err (body : list byte) (err : option error) (n : Z) : option error :=
  if n <=? Z.of_nat (List.length body) then None else err.

(** [io.Copy(w, src)], where [src] yields [data] and ends with
    [readErr], and where the client's connection takes [k] bytes and then
    fails with [e] when [writeFail = Some (k, e)]: the bytes written and
    the error returned. *)
Definition io_Copy (data : list byte) (readErr : option error)
    (writeFail : option (nat * error)) : list byte * option error :=
  match writeFail with
  | Some (k, e) =>
      if (k <? List.length data)%nat then (take k data, Some e) else (data, readErr)
  | None => (data, readErr)
  end.

(** Lines 258-286: what [directResponse] hands to the response writer
    for an origin response; when [io.Copy] fails, [errorResponse] follows
    what has been written. *)
Definition directResponseOk (ErrNotOK_text : string) (method : string)
    (resp : OriginResponse) (writeFail : option (nat * error)) : Response :=
  let header' :=
    List.filter (fun kv => negb (existsb (String.eqb (fst kv)) ignoreHeader))
      (Header resp) in
  if String.eqb method "GET" then
    let contentLength := ContentLength resp in
    let data :=
      if 0 <? contentLength then LimitReader (Body resp) contentLength else Body resp in
    let readErr :=
      if 0 <? contentLength
      then LimitReader_err (Body resp) (BodyErr resp) contentLength
      else BodyErr resp in
    let '(copied, err) := io_Copy data readErr writeFail in
    Proxied (StatusCode resp) header' copied (Error ErrNotOK_text <$> err)
  else Proxied (StatusCode resp) header' [] None.

(** ** Goroutines and shared state *)

(** Channels and goroutines are named by the order of their creation. *)
Abbreviation chan := nat (only parsing).
Abbreviation tid := nat (only parsing).

(** A [context.Context]: [context.Background()], a request context
    that is still live, or one that is done with its [Err()]. *)
Inductive ctx_state :=
| CtxBackground
| CtxLive
| CtxDone (err : error).

Definition ctx_Err (c : ctx_state) : option error :=
  match c with
  | CtxDone e => Some e
  | _ => None
  end.

(** The locals of [cacheResponse] fixed before the reservation loop:
    [file], [u] and [r.URL]. *)
Record locals := { l_file : string; l_u : string; l_url : URL }.

(** Program points.  Each names the statement the goroutine executes
    next; [closeCh] and [errCh] are the channels held in its locals. *)
Inductive PC :=
| Entry (r : Request)                                  (* ServeHTTP, line 49 *)
| AtDirect (r : Request)                               (* m.client().Do(r), line 251 *)
| AtLoadOrStore (l : locals)                           (* m.mut.LoadOrStore, lines 124, 133 *)
| AtSelectWait (l : locals) (closeCh : chan)           (* select, line 127 *)
| AtStat (l : locals) (closeCh : chan)                 (* RemoteCache.Stat, line 142 *)
| AtHead (l : locals) (closeCh : chan) (cacheSize : Z) (* httpHead, line 164 *)
| AtGo (l : locals) (closeCh : chan)                   (* errCh, go func, lines 189-195 *)
| AtSelectResult (l : locals) (errCh : chan)           (* select, line 197 *)
| AtDelete (l : locals) (closeCh : chan)               (* doneCache: m.mut.Delete(u) *)
| AtClose (closeCh : chan)                             (* doneCache: close(closeCh) *)
| JobGet (l : locals) (closeCh errCh : chan)           (* cacheFile: httpGet, line 216 *)
| JobPut (l : locals) (closeCh errCh : chan) (body : list byte) (* RemoteCache.Put, line 236 *)
| JobSend (l : locals) (closeCh errCh : chan) (err : option error) (* errCh <- err *)
| Returned
| Panicked (held : option (string * chan)).

Record Thread := { ctx : ctx_state; written : option Response; pc : PC }.

(** Calls out of the handler and operations on the shared map and
    channels, most recent first; a [Put] is recorded with the error it
    returned. *)
Inductive Event :=
| EvStat (t : tid) (key : string)
| EvHead (t : tid) (url : URL)
| EvGet (t : tid) (url : URL)
| EvPut (t : tid) (key : string) (body : list byte) (err : option error)
| EvDo (t : tid) (r : Request)
| EvStore (t : tid) (u : string) (c : chan)
| EvDelete (t : tid) (u : string)
| EvClose (t : tid) (c : chan).

(** [mut] is the handler's [sync.Map]; [closed] the completion channels
    that have been closed; [errChs] the one-slot buffers of the [errCh]
    channels; [store] the remote store's objects.  [Stat] succeeds for
    a key that is present, and the size in the info it returns is the
    store's to report. *)
Record State := {
  mut : gmap string chan;
  closed : gset chan;
  errChs : gmap chan (option error);
  next_chan : chan;
  store : gmap string (list byte);
  threads : list Thread;
  trace : list Event
}.

(** The process starts with an empty in-flight map and no goroutine;
    the remote store outlives the process and holds whatever it holds. *)
Definition init (st : gmap string (list byte)) : State :=
  {| mut := ∅; closed := ∅; errChs := ∅; next_chan := 0%nat; store := st;
     threads := []; trace := [] |}.

Definition set_thread (t : tid) (th : Thread) (s : State) : State :=
  {| mut := mut s; closed := closed s; errChs := errChs s; next_chan := next_chan s;
     store := store s; threads := <[t:=th]> (threads s); trace := trace s |}.

Definition spawn (th : Thread) (s : State) : State :=
  {| mut := mut s; closed := closed s; errChs := errChs s; next_chan := next_chan s;
     store := store s; threads := threads s ++ [th]; trace := trace s |}.

Definition emit (ev : Event) (s : State) : State :=
  {| mut := mut s; closed := closed s; errChs := errChs s; next_chan := next_chan s;
     store := store s; threads := threads s; trace := ev :: trace s |}.

Definition set_mut (mu : gmap string chan) (s : State) : State :=
  {| mut := mu; closed := closed s; errChs := errChs s; next_chan := next_chan s;
     store := store s; threads := threads s; trace := trace s |}.

Definition set_closed (cl : gset chan) (s : State) : State :=
  {| mut := mut s; closed := cl; errChs := errChs s; next_chan := next_chan s;
     store := store s; threads := threads s; trace := trace s |}.

Definition set_errChs (ec : gmap chan (option error)) (s : State) : State :=
  {| mut := mut s; closed := closed s; errChs := ec; next_chan := next_chan s;
     store := store s; threads := threads s; trace := trace s |}.

Definition make_chan (s : State) : State :=
  {| mut := mut s; closed := closed s; errChs := errChs s; next_chan := S (next_chan s);
     store := store s; threads := threads s; trace := trace s |}.

Definition set_store (st : gmap string (list byte)) (s : State) : State :=
  {| mut := mut s; closed := closed s; errChs := errChs s; next_chan := next_chan s;
     store := st; threads := threads s; trace := trace s |}.

(** What the environment contributes to a statement: nothing, the
    result of a call out, or the ready case a [select] takes. *)
Inductive IO :=
| Local
| Fails (e : error)                  (* the call returns the error [e] *)
| StatOk (size : Z)                  (* Stat returns info whose Size() is [size] *)
| HeadOk (size : Z)                  (* httpHead returns info of this size *)
| GetOk (contentLength : Z) (body : list byte) (* httpGet returns a body and info *)
| PutOk                              (* Put stores what it read *)
| DoOk (resp : OriginResponse) (writeFail : option (nat * error))
    (* client().Do returns [resp]; the client's connection takes the
       given number of bytes and then fails, if [writeFail] is set *)
| OnDone                             (* case <-ctx.Done() *)
| OnRecv.                            (* the other case of the select *)

Inductive Action :=
| Arrive (r : Request)               (* the server starts a handler goroutine *)
| Cancel (t : tid)                   (* the caller's context is cancelled *)
| Deadline (t : tid)                 (* the caller's context passes its deadline *)
| Run (t : tid) (io : IO).           (* goroutine [t] executes its next statement *)

Arguments Cancel t%_nat_scope.
Arguments Deadline t%_nat_scope.
Arguments Run t%_nat_scope io.

(** ** The transition system *)

Section Machine.

(** [s3utils.IsValidDomain] and [path.Join] come from libraries; the
    text of [ErrNotOK] from a file of the package that is not at hand. *)
Variable IsValidDomain : string -> bool.
Variable path_Join : string -> string -> string.
Variable ErrNotOK_text : string.
Variable m : MirrorHandler.

Definition at_pc (th : Thread) (p : PC) : Thread :=
  {| ctx := ctx th; written := written th; pc := p |}.

Definition respond (th : Thread) (resp : Response) (p : PC) : Thread :=
  {| ctx := ctx th; written := Some resp; pc := p |}.

(** [m.errorResponse(w, r, err)] followed by the statement at [p]; a
    nil [err] panics inside [errorResponse], with [held] still
    reserved. *)
Definition fail_with (th : Thread) (err : option error) (p : PC)
    (held : option (string * chan)) : Thread :=
  match errorResponse ErrNotOK_text err with
  | Some resp => respond th resp p
  | None => at_pc th (Panicked held)
  end.

Definition redirect (th : Thread) (l : locals) (closeCh : chan) : Thread :=
  respond th (HttpRedirect (l_u l) StatusFound) (AtDelete l closeCh).

(** One statement of goroutine [t], whose record is [th]. *)
Definition run (t : tid) (th : Thread) (io : IO) (s : State) : option State :=
  match pc th, io with
  | Entry r, Local =>
      match ServeHTTP IsValidDomain m r with
      | Respond resp => Some (set_thread t (respond th resp Returned) s)
      | ToDirect r' => Some (set_thread t (at_pc th (AtDirect r')) s)
      | ToCache r' =>
          let file := path_Join (Host r') (UPath (RURL r')) in
          match RedirectLinks m with
          | None => Some (set_thread t (at_pc th (Panicked None)) s)
          | Some links =>
              let '(u, ok) := links file in
              if ok : bool then
                Some (set_thread t
                        (at_pc th (AtLoadOrStore {| l_file := file; l_u := u; l_url := RURL r' |})) s)
              else Some (set_thread t (respond th NotFoundResponse Returned) s)
          end
      end
  | AtDirect r, DoOk resp writeFail =>
      Some (emit (EvDo t r)
              (set_thread t
                 (respond th (directResponseOk ErrNotOK_text (Method r) resp writeFail)
                    Returned) s))
  | AtDirect r, Fails e =>
      Some (emit (EvDo t r) (set_thread t (fail_with th (Some e) Returned None) s))
  | AtLoadOrStore l, Local =>
      let c := next_chan s in
      match mut s !! l_u l with
      | Some closeCh => Some (make_chan (set_thread t (at_pc th (AtSelectWait l closeCh)) s))
      | None =>
          Some (emit (EvStore t (l_u l) c)
                  (make_chan (set_mut (<[l_u l := c]> (mut s))
                                (set_thread t (at_pc th (AtStat l c)) s))))
      end
  | AtSelectWait l closeCh, OnDone =>
      match ctx_Err (ctx th) with
      | Some _ => Some (set_thread t (fail_with th (ctx_Err (ctx th)) Returned None) s)
      | None => None
      end
  | AtSelectWait l closeCh, OnRecv =>
      if bool_decide (closeCh ∈ closed s)
      then Some (set_thread t (at_pc th (AtLoadOrStore l)) s)
      else None
  | AtStat l closeCh, StatOk cacheSize =>
      match store s !! l_file l with
      | Some _ =>
          Some (emit (EvStat t (l_file l))
                  (set_thread t
                     (if CheckSyncTimeout m =? 0 then redirect th l closeCh
                      else at_pc th (AtHead l closeCh cacheSize)) s))
      | None => None
      end
  | AtStat l closeCh, Fails err =>
      Some (emit (EvStat t (l_file l))
              (set_thread t
                 (if errors_Is err Canceled
                  then fail_with th (ctx_Err (ctx th)) (AtDelete l closeCh)
                         (Some (l_u l, closeCh))
                  else at_pc th (AtGo l closeCh)) s))
  | AtHead l closeCh cacheSize, HeadOk sourceSize =>
      Some (emit (EvHead t (l_url l))
              (set_thread t
                 (if trustCache cacheSize sourceSize then redirect th l closeCh
                  else at_pc th (AtGo l closeCh)) s))
  | AtHead l closeCh cacheSize, Fails err =>
      Some (emit (EvHead t (l_url l)) (set_thread t (redirect th l closeCh) s))
  | AtGo l closeCh, Local =>
      let errCh := next_chan s in
      Some (spawn {| ctx := CtxBackground; written := None; pc := JobGet l closeCh errCh |}
              (make_chan (set_thread t (at_pc th (AtSelectResult l errCh)) s)))
  | AtSelectResult l errCh, OnDone =>
      match ctx_Err (ctx th) with
      | Some _ => Some (set_thread t (fail_with th (ctx_Err (ctx th)) Returned None) s)
      | None => None
      end
  | AtSelectResult l errCh, OnRecv =>
      match errChs s !! errCh with
      | Some err =>
          Some (set_errChs (delete errCh (errChs s))
                  (set_thread t
                     (match populateResponse ErrNotOK_text (l_u l) err with
                      | Some resp => respond th resp Returned
                      | None => at_pc th (Panicked None)
                      end) s))
      | None => None
      end
  | AtDelete l closeCh, Local =>
      Some (emit (EvDelete t (l_u l))
              (set_mut (delete (l_u l) (mut s)) (set_thread t (at_pc th (AtClose closeCh)) s)))
  | AtClose closeCh, Local =>
      if bool_decide (closeCh ∈ closed s)
      then Some (set_thread t (at_pc th (Panicked None)) s)
      else Some (emit (EvClose t closeCh)
                   (set_closed ({[closeCh]} ∪ closed s) (set_thread t (at_pc th Returned) s)))
  | JobGet l closeCh errCh, GetOk contentLength body =>
      Some (emit (EvGet t (l_url l))
              (set_thread t
                 (match cacheFileBody contentLength body with
                  | inl err => at_pc th (JobSend l closeCh errCh (Some err))
                  | inr b => at_pc th (JobPut l closeCh errCh b)
                  end) s))
  | JobGet l closeCh errCh, Fails err =>
      Some (emit (EvGet t (l_url l))
              (set_thread t (at_pc th (JobSend l closeCh errCh (Some err))) s))
  | JobPut l closeCh errCh body, PutOk =>
      Some (emit (EvPut t (l_file l) body None)
              (set_store (<[l_file l := body]> (store s))
                 (set_thread t (at_pc th (JobSend l closeCh errCh None)) s)))
  | JobPut l closeCh errCh body, Fails err =>
      Some (emit (EvPut t (l_file l) body (Some err))
              (set_thread t (at_pc th (JobSend l closeCh errCh (Some err))) s))
  | JobSend l closeCh errCh err, Local =>
      match errChs s !! errCh with
      | None =>
          Some (set_errChs (<[errCh := err]> (errChs s))
                  (set_thread t (at_pc th (AtDelete l closeCh)) s))
      | Some _ => None
      end
  | _, _ => None
  end.

Definition end_ctx (t : tid) (e : error) (s : State) : option State :=
  match threads s !! t with
  | Some th =>
      match ctx th with
      | CtxLive =>
          Some (set_thread t {| ctx := CtxDone e; written := written th; pc := pc th |} s)
      | _ => None
      end
  | None => None
  end.

Definition step (a : Action) (s : State) : option State :=
  match a with
  | Arrive r => Some (spawn {| ctx := CtxLive; written := None; pc := Entry r |} s)
  | Cancel t => end_ctx t Canceled s
  | Deadline t => end_ctx t DeadlineExceeded s
  | Run t io =>
      match threads s !! t with
      | Some th => run t th io s
      | None => None
      end
  end.

Fixpoint exec (acts : list Action) (s : State) : option State :=
  match acts with
  | [] => Some s
  | a :: acts' =>
      match step a s with
      | Some s' => exec acts' s'
      | None => None
      end
  end.

Definition reachable (s : State) : Prop :=
  ∃ st acts, exec acts (init st) = Some s.

End Machine.

(** ** What a goroutine holds *)

(** The entry of [mut] a goroutine has stored and not yet deleted: from
    a winning [LoadOrStore] up to [m.mut.Delete(u)] in [doneCache]. *)
Definition reserved (p : PC) : option (string * chan) :=
  match p with
  | AtStat l c | AtHead l c _ | AtGo l c | AtDelete l c
  | JobGet l c _ | JobPut l c _ _ | JobSend l c _ _ => Some (l_u l, c)
  | Panicked held => held
  | _ => None
  end.

(** The completion channel a goroutine has made and not yet closed. *)
Definition closing (p : PC) : option chan :=
  match p with
  | AtClose c => Some c
  | _ => snd <$> reserved p
  end.

(** The [errCh] a populate goroutine has still to send on. *)
Definition sending (p : PC) : option chan :=
  match p with
  | JobGet _ _ e | JobPut _ _ e _ | JobSend _ _ e _ => Some e
  | _ => None
  end.


Definition pc_locals (p : PC) : option locals :=
  match p with
  | AtLoadOrStore l | AtSelectWait l _ | AtStat l _ | AtHead l _ _ | AtGo l _
  | AtSelectResult l _ | AtDelete l _ | JobGet l _ _ | JobPut l _ _ _
  | JobSend l _ _ _ => Some l
  | _ => None
  end.

Definition view (th : Thread) : option (string * chan) * option chan :=
  (reserved (pc th), closing (pc th)).

(** The reservation invariant, on the goroutines' views:
    every reservation held is the entry of [mut] under its key; every
    entry of [mut] is held by some goroutine; a completion channel has
    one goroutine that closes it; it is allocated and still open; and
    every closed channel is an allocated one. *)
Definition Inv_v (vs : list (option (string * chan) * option chan))
    (mu : gmap string chan) (cl : gset chan) (n : chan) : Prop :=
  (∀ (t : nat) u c o, vs !! t = Some (Some (u, c), o) → o = Some c ∧ mu !! u = Some c) ∧
  (∀ u c, mu !! u = Some c → ∃ (t : nat) o, vs !! t = Some (Some (u, c), o)) ∧
  (∀ (t1 t2 : nat) r1 r2 c,
     vs !! t1 = Some (r1, Some c) → vs !! t2 = Some (r2, Some c) → t1 = t2) ∧
  (∀ (t : nat) r c, vs !! t = Some (r, Some c) → (c < n)%nat ∧ c ∉ cl) ∧
  (∀ c, c ∈ cl → (c < n)%nat).

Definition Inv (s : State) : Prop :=
  Inv_v (view <$> threads s) (mut s) (closed s) (next_chan s).

(** The result channels: a populate goroutine that has still to send
    finds its [errCh] allocated and empty, no two of them share one, and
    no channel beyond the allocated ones holds a value. *)
Definition Buf_v (ss : list (option chan)) (ec : gmap chan (option error)) (n : chan)
  : Prop :=
  (∀ (t : nat) e, ss !! t = Some (Some e) → (e < n)%nat ∧ ec !! e = None) ∧
  (∀ (t1 t2 : nat) e, ss !! t1 = Some (Some e) → ss !! t2 = Some (Some e) → t1 = t2) ∧
  (∀ e, (n ≤ e)%nat → ec !! e = None).

Definition Buf (s : State) : Prop :=
  Buf_v ((λ th, sending (pc th)) <$> threads s) (errChs s) (next_chan s).



(** ** Counting events *)

Definition ev_tid (ev : Event) : tid :=
  match ev with
  | EvStat t _ | EvHead t _ | EvGet t _ | EvPut t _ _ _ | EvDo t _
  | EvStore t _ _ | EvDelete t _ | EvClose t _ => t
  end.



Definition is_put_of (key : string) (ev : Event) : bool :=
  match ev with
  | EvPut _ k _ _ => String.eqb key k
  | _ => false
  end.


Definition count (f : Event → bool) (tr : list Event) : nat :=
  List.length (List.filter f tr).






(** Goroutine [t] holds the reservation of [u] in the in-flight map. *)
Definition holds_reservation (s : State) (t : tid) (u : string) : Prop :=
  ∃ th c, threads s !! t = Some th ∧ reserved (pc th) = Some (u, c).


(** ** The ways a populate job ends *)









(** ** Concrete instances *)

(** A handler with caching configured, first-path mode on, no freshness
    check, and one blocked suffix. *)
Definition links_s3 (p : string) : string * bool := ("https://s3.local/" ++ p, true).

Definition handler0 : MirrorHandler :=
  {| RemoteCache := true; RedirectLinks := Some links_s3; BaseDomain := EmptyString;
     CheckSyncTimeout := 0; HostFromFirstPath := true; BlockSuffix := [".exe"] |}.

(** The same handler with a freshness-check timeout of five seconds
    (a [time.Duration] counts nanoseconds). *)
Definition handler5 : MirrorHandler :=
  {| RemoteCache := true; RedirectLinks := Some links_s3; BaseDomain := EmptyString;
     CheckSyncTimeout := 5000000000; HostFromFirstPath := true; BlockSuffix := [".exe"] |}.

Definition get_request (path : string) : Request :=
  {| Method := "GET"; Host := "mirror.local";
     RURL := {| Scheme := EmptyString; UHost := EmptyString; UPath := path |} |}.

(** Stand-ins for the library functions: every host is taken as a valid
    domain, and [path.Join] is concatenation, which is what it returns
    for a host and a clean absolute path. *)
Definition any_domain (host : string) : bool := true.
Definition join_clean (host path : string) : string := host ++ path.
Definition not_ok_text : string := "not ok".

Definition exec0 := exec any_domain join_clean not_ok_text handler0.
Definition exec5 := exec any_domain join_clean not_ok_text handler5.

(** One resource, its cache key, its redirect target and the locals of
    a request for it. *)
Definition request_a : Request := get_request "/example.com/a".
Definition key_a : string := "example.com/a".
Definition u_a : string := "https://s3.local/example.com/a".
Definition locals_a : locals :=
  {| l_file := key_a; l_u := u_a;
     l_url := {| Scheme := "https"; UHost := "example.com"; UPath := "/a" |} |}.

Definition abc : list byte := [x61; x62; x63]%byte.
Definition abcd : list byte := [x61; x62; x63; x64]%byte.

Definition state_of (o : option State) : State := default (init ∅) o.

(** A request for [key_a] that has won the reservation and is about to
    call [Stat], with freshness checking on: on a store holding three
    bytes, on a store holding an empty object, and with its context
    cancelled. *)
Definition to_stat : list Action := [Arrive request_a; Run 0 Local; Run 0 Local].

Definition at_stat_hit : State := state_of (exec5 to_stat (init {[ key_a := abc ]})).
Definition at_stat_empty : State := state_of (exec5 to_stat (init {[ key_a := [] ]})).
Definition at_stat_canceled : State :=
  state_of (exec5 (to_stat ++ [Cancel 0])%list (init {[ key_a := abc ]})).

(** A request for [key_a] that missed and started its populate job:
    goroutine 0 waits for the result, goroutine 1 is about to fetch. *)
Definition to_populate : list Action :=
  to_stat ++ [Run 0 (Fails (ErrOther "not found")); Run 0 Local].

Definition at_populate : State := state_of (exec0 to_populate (init ∅)).



(** The two requests without freshness checking and every call
    succeeding: goroutine 1 finds the entry and redirects. *)
Definition two_requests_one_put : list Action :=
  [Arrive request_a; Arrive request_a; Run 0 Local; Run 1 Local;
   Run 0 Local; Run 1 Local;
   Run 0 (Fails (ErrOther "not found")); Run 0 Local;
   Run 2 (GetOk 3 abc); Run 2 PutOk;
   Run 2 Local; Run 2 Local; Run 2 Local; Run 0 OnRecv;
   Run 1 OnRecv; Run 1 Local;
   Run 1 (StatOk 3); Run 1 Local; Run 1 Local].

(** A caller whose context is cancelled after its populate job has sent
    the result and before its [select] runs, and whose [select] takes
    the result: after an origin that declared an empty body, after a
    failed GET, and after a successful [Put]. *)
Definition canceled_gets_not_found : list Action :=
  (to_populate ++ [Run 1 (GetOk 0 abc); Run 1 Local; Cancel 0; Run 0 OnRecv])%list.

Definition canceled_gets_populate_error : list Action :=
  (to_populate ++ [Run 1 (Fails (ErrOther "connection refused")); Run 1 Local;
                   Cancel 0; Run 0 OnRecv])%list.

Definition canceled_gets_redirect : list Action :=
  (to_populate ++ [Run 1 (GetOk 3 abc); Run 1 PutOk; Run 1 Local; Cancel 0;
                   Run 0 OnRecv])%list.

(** The first of these runs up to the caller's [select]: the result is
    in [errCh] and the context is done. *)
Definition at_result_canceled : State :=
  state_of (exec0 (to_populate ++ [Run 1 (GetOk 0 abc); Run 1 Local; Cancel 0])%list
              (init ∅)).

(** Two requests for [key_a] on a store that holds it: goroutine 1 waits
    for the reservation of goroutine 0, which redirects and releases;
    goroutine 1 is then cancelled, and its [select] takes the closed
    channel. *)
Definition canceled_waiter_retries : list Action :=
  [Arrive request_a; Arrive request_a; Run 0 Local; Run 1 Local;
   Run 0 Local; Run 1 Local;
   Run 0 (StatOk 3); Run 0 Local; Run 0 Local;
   Cancel 1; Run 1 OnRecv; Run 1 Local].

(** A request that finds an empty object under its key and runs to its
    end: without freshness checking, and with it when the probe fails. *)
Definition hit_to_end : list Action :=
  to_stat ++ [Run 0 (StatOk 0); Run 0 Local; Run 0 Local].

Definition hit_probe_fails_to_end : list Action :=
  to_stat ++ [Run 0 (StatOk 0); Run 0 (Fails DeadlineExceeded); Run 0 Local; Run 0 Local].

(** The goroutine records found in these states. *)
Definition stat_thread : Thread :=
  {| ctx := CtxLive; written := None; pc := AtStat locals_a 0 |}.
Definition stat_thread_canceled : Thread :=
  {| ctx := CtxDone Canceled; written := None; pc := AtStat locals_a 0 |}.
Definition waiting_thread : Thread :=
  {| ctx := CtxLive; written := None; pc := AtSelectResult locals_a 1 |}.
Definition waiting_thread_canceled : Thread :=
  {| ctx := CtxDone Canceled; written := None; pc := AtSelectResult locals_a 1 |}.
Definition job_thread : Thread :=
  {| ctx := CtxBackground; written := None; pc := JobGet locals_a 0 1 |}.


(** ** Responses and calls *)






(** The calls to the store and to the origin made on the cache path. *)
Definition is_call (ev : Event) : bool :=
  match ev with
  | EvStat _ _ | EvHead _ _ | EvGet _ _ | EvPut _ _ _ _ => true
  | _ => false
  end.

(** The call [ev] is about the key and the origin URL in [l]. *)
Definition call_of (l : locals) (ev : Event) : Prop :=
  match ev with
  | EvStat _ key | EvPut _ key _ _ => key = l_file l
  | EvHead _ url | EvGet _ url => url = l_url l
  | _ => False
  end.

(** A request for [key_a] that found the entry, without freshness
    checking, and has its answer written: about to run [doneCache]. *)
Definition at_delete : State :=
  state_of (exec0 (to_stat ++ [Run 0 (StatOk 3)])%list (init {[ key_a := abc ]})).

Definition delete_thread : Thread :=
  {| ctx := CtxLive; written := Some (HttpRedirect u_a StatusFound);
     pc := AtDelete locals_a 0 |}.

(** The same request before its [Stat], on an empty store. *)
Definition at_stat_miss : State := state_of (exec0 to_stat (init ∅)).





(** The two requests of [two_requests_one_put], run to their end. *)
Definition all_returned : State :=
  state_of (exec0 two_requests_one_put (init ∅)).

(** The populate job of [at_populate] about to put three bytes, and the
    state after its [Put]. *)
Definition to_put : list Action := (to_populate ++ [Run 1 (GetOk 3 abc)])%list.
Definition at_put : State := state_of (exec0 to_put (init ∅)).
Definition after_put : State :=
  state_of (exec0 (to_put ++ [Run 1 PutOk])%list (init ∅)).

Definition put_thread : Thread :=
  {| ctx := CtxBackground; written := None; pc := JobPut locals_a 0 1 abc |}.
(** ** Facts about the string functions *)

Lemma append_cons (c : ascii) (a b : string) : String c a ++ b = String c (a ++ b).
Proof. reflexivity. Qed.

Lemma append_nil_l (b : string) : EmptyString ++ b = b.
Proof. reflexivity. Qed.

Lemma length_append (a b : string) :
  String.length (a ++ b) = (String.length a + String.length b)%nat.
Proof. induction a as [|c a IH]; simpl; [done|]. by rewrite IH. Qed.

Lemma substring_all (s : string) : substring 0 (String.length s) s = s.
Proof. induction s as [|c s IH]; simpl; [done|]. by rewrite IH. Qed.

Lemma substring_skip (pre s : string) (n : nat) :
  substring (String.length pre) n (pre ++ s) = substring 0 n s.
Proof. induction pre as [|c pre IH]; simpl; [done|]. apply IH. Qed.

Lemma substring_split (k : nat) (s : string) :
  (k ≤ String.length s)%nat →
  s = substring 0 k s ++ substring k (String.length s - k) s.
Proof.
  revert k. induction s as [|c s IH]; intros k Hk; simpl in *.
  - by destruct k.
  - destruct k as [|k]; simpl.
    + by rewrite substring_all.
    + rewrite append_cons. f_equal. apply IH. lia.
Qed.

(** [strings.HasSuffix s suffix] says that [s] ends with [suffix]. *)
Lemma HasSuffix_spec (s suffix : string) :
  strings.HasSuffix s suffix = true ↔ ∃ pre, s = pre ++ suffix.
Proof.
  unfold strings.HasSuffix. rewrite andb_true_iff, Nat.leb_le, String.eqb_eq. split.
  - intros [Hle Hsub].
    set (k := (String.length s - String.length suffix)%nat) in *.
    exists (substring 0 k s).
    rewrite (substring_split k s) at 1 by lia. f_equal.
    replace (String.length s - k)%nat with (String.length suffix) by lia.
    exact Hsub.
  - intros [pre ->]. rewrite length_append. split; [lia|].
    replace (String.length pre + String.length suffix - String.length suffix)%nat
      with (String.length pre) by lia.
    by rewrite substring_skip, substring_all.
Qed.

Lemma slice_from_1 (c : ascii) (s : string) : slice_from 1 (String c s) = s.
Proof. unfold slice_from. simpl. rewrite Nat.sub_0_r. apply substring_all. Qed.

Lemma Split_nonempty (s : string) (sep : ascii) : strings.Split s sep ≠ [].
Proof. destruct s as [|c s]; simpl; [done|]. repeat case_match; done. Qed.

(** Joining what [Split] produced gives the string back. *)
Lemma Join_Split (s : string) (sep : ascii) :
  strings.Join (strings.Split s sep) (String sep EmptyString) = s.
Proof.
  unfold strings.Join. induction s as [|c s IH]; simpl; [done|].
  pose proof (Split_nonempty s sep) as Hne.
  destruct (Ascii.eqb_spec c sep) as [->|Hc].
  - simpl. destruct (strings.Split s sep) eqn:E; [done|]. by rewrite IH.
  - destruct (strings.Split s sep) as [|w ws] eqn:E; [done|].
    simpl in *. destruct ws; simpl in *; by rewrite <- IH.
Qed.

(** A first segment without the separator is split off whole. *)
Lemma Split_first (h rest : string) (sep : ascii) :
  sep ∉ list_ascii_of_string h →
  strings.Split (h ++ String sep rest) sep = h :: strings.Split rest sep.
Proof.
  induction h as [|c h IH]; simpl; intros Hno.
  - by rewrite Ascii.eqb_refl.
  - apply not_elem_of_cons in Hno as [Hc Hno].
    destruct (Ascii.eqb_spec c sep) as [->|_]; [done|].
    by rewrite IH.
Qed.

Lemma Split_single (h : string) (sep : ascii) :
  sep ∉ list_ascii_of_string h → strings.Split h sep = [h].
Proof.
  induction h as [|c h IH]; simpl; intros Hno; [done|].
  apply not_elem_of_cons in Hno as [Hc Hno].
  destruct (Ascii.eqb_spec c sep) as [->|_]; [done|].
  by rewrite IH.
Qed.

(** ** Invariants of the transition system *)

(** Projections of an updated state. *)
Ltac unfold_state :=
  cbn [threads mut closed errChs next_chan store trace
       set_thread emit set_mut set_closed set_errChs make_chan set_store spawn].

Lemma lookup_snoc_eq {A} (l : list A) (x : A) (n : nat) :
  n = List.length l → (l ++ [x])%list !! n = Some x.
Proof. intros ->. by rewrite lookup_app_r, Nat.sub_diag. Qed.

Lemma insert_snoc_eq {A} (l : list A) (x y : A) (n : nat) :
  n = List.length l → <[n:=y]> (l ++ [x])%list = (l ++ [y])%list.
Proof.
  intros ->. replace (List.length l) with (List.length l + 0)%nat by lia.
  by rewrite insert_app_r.
Qed.

Lemma insert_snoc_lt {A} (l : list A) (x y : A) (n : nat) :
  (n < List.length l)%nat → <[n:=y]> (l ++ [x])%list = (<[n:=y]> l ++ [x])%list.
Proof. intros H. by rewrite insert_app_l. Qed.

(** Bring the goroutine list of an updated state to the form
    [<[t:=th]> ths] or [<[t:=th]> ths ++ [job]]. *)
Ltac norm_threads :=
  unfold_state;
  repeat first
    [ rewrite list_insert_insert_eq
    | rewrite insert_snoc_eq by (rewrite ?length_insert; reflexivity)
    | rewrite insert_snoc_lt by (rewrite ?length_insert; lia) ].

Ltac lookup_thread :=
  norm_threads;
  first
    [ eassumption
    | rewrite lookup_snoc_eq by (rewrite ?length_insert; reflexivity); reflexivity
    | rewrite lookup_app_l by (rewrite ?length_insert; lia);
      rewrite list_lookup_insert_eq by (rewrite ?length_insert; lia); reflexivity
    | rewrite list_lookup_insert_eq by (rewrite ?length_insert; lia); reflexivity
    | rewrite list_lookup_insert_ne by done; eassumption ].

Lemma closing_reserved p u c : reserved p = Some (u, c) → closing p = Some c.
Proof. destruct p; simpl; intros H; simplify_eq; done. Qed.

Section InvLemmas.
Context (vs : list (option (string * chan) * option chan))
        (mu : gmap string chan) (cl : gset chan) (n : chan).
Hypothesis HI : Inv_v vs mu cl n.

Lemma Inv_v_unique (t1 t2 : nat) u c1 c2 o1 o2 :
  vs !! t1 = Some (Some (u, c1), o1) → vs !! t2 = Some (Some (u, c2), o2) → t1 = t2.
Proof.
  destruct HI as (I1 & _ & I3 & _). intros H1 H2.
  destruct (I1 _ _ _ _ H1) as [-> E1]. destruct (I1 _ _ _ _ H2) as [-> E2].
  rewrite E1 in E2. injection E2 as ->. eauto.
Qed.

Lemma Inv_v_make_chan : Inv_v vs mu cl (S n).
Proof.
  destruct HI as (I1 & I2 & I3 & I4 & I5). split_and!; eauto.
  - intros t r c H. destruct (I4 _ _ _ H). split; [lia|done].
  - intros c H. specialize (I5 _ H). lia.
Qed.

Lemma Inv_v_arrive : Inv_v (vs ++ [(None, None)]) mu cl n.
Proof.
  destruct HI as (I1 & I2 & I3 & I4 & I5). split_and!; [| | | |done].
  - intros t u c o [[_ H]|[_ H]]%lookup_snoc_Some; [eauto|done].
  - intros u c H. destruct (I2 _ _ H) as (t & o & Ht).
    exists t, o. by apply lookup_app_l_Some.
  - intros t1 t2 r1 r2 c [[_ H1]|[_ H1]]%lookup_snoc_Some
      [[_ H2]|[_ H2]]%lookup_snoc_Some; try done. eauto.
  - intros t r c [[_ H]|[_ H]]%lookup_snoc_Some; [eauto|done].
Qed.

Lemma Inv_v_store (t : nat) u :
  vs !! t = Some (None, None) → mu !! u = None →
  Inv_v (<[t:=(Some (u, n), Some n)]> vs) (<[u:=n]> mu) cl (S n).
Proof.
  destruct HI as (I1 & I2 & I3 & I4 & I5). intros Ht Hu.
  assert (Hlt := lookup_lt_Some _ _ _ Ht). split_and!.
  - intros t' u' c o [(-> & [= <- <- <-] & _)|[Hne H]]%list_lookup_insert_Some.
    + by rewrite lookup_insert_eq.
    + destruct (I1 _ _ _ _ H) as [-> E]. split; [done|].
      rewrite lookup_insert_ne; [done|]. intros <-. congruence.
  - intros u' c [[<- <-]|[Hne H]]%lookup_insert_Some.
    + exists t, (Some n). by rewrite list_lookup_insert_eq.
    + destruct (I2 _ _ H) as (t' & o & Ht'). exists t', o.
      rewrite list_lookup_insert_ne; [done|]. intros <-. congruence.
  - intros t1 t2 r1 r2 c
      [(-> & [= <- <-] & _)|[Hne1 H1]]%list_lookup_insert_Some
      [(-> & [= <-] & _)|[Hne2 H2]]%list_lookup_insert_Some; subst; try done.
    + destruct (I4 _ _ _ H2); lia.
    + destruct (I4 _ _ _ H1); lia.
    + eauto.
  - intros t' r c [(-> & [= <- <-] & _)|[Hne H]]%list_lookup_insert_Some.
    + split; [lia|]. intros Hc. specialize (I5 _ Hc). lia.
    + destruct (I4 _ _ _ H). split; [lia|done].
  - intros c H. specialize (I5 _ H). lia.
Qed.

Lemma Inv_v_delete (t : nat) u c :
  vs !! t = Some (Some (u, c), Some c) →
  Inv_v (<[t:=(None, Some c)]> vs) (delete u mu) cl n.
Proof.
  intros Ht. assert (Hlt := lookup_lt_Some _ _ _ Ht).
  pose proof Inv_v_unique as Hun.
  destruct HI as (I1 & I2 & I3 & I4 & I5). split_and!; [| | | |done].
  - intros t' u' c' o [(-> & [=] & _)|[Hne H]]%list_lookup_insert_Some.
    destruct (I1 _ _ _ _ H) as [-> E]. split; [done|].
    rewrite lookup_delete_ne; [done|]. intros <-. eauto.
  - intros u' c' [Hne H]%lookup_delete_Some.
    destruct (I2 _ _ H) as (t' & o & Ht'). exists t', o.
    rewrite list_lookup_insert_ne; [done|]. intros <-. congruence.
  - intros t1 t2 r1 r2 c'
      [(-> & [= <- <-] & _)|[Hne1 H1]]%list_lookup_insert_Some
      [(-> & [= <-] & _)|[Hne2 H2]]%list_lookup_insert_Some; subst; eauto.
  - intros t' r c' [(-> & [= <- <-] & _)|[Hne H]]%list_lookup_insert_Some; eauto.
Qed.

Lemma Inv_v_close (t : nat) c :
  vs !! t = Some (None, Some c) →
  Inv_v (<[t:=(None, None)]> vs) mu ({[c]} ∪ cl) n.
Proof.
  intros Ht. assert (Hlt := lookup_lt_Some _ _ _ Ht).
  destruct HI as (I1 & I2 & I3 & I4 & I5). split_and!.
  - intros t' u' c' o [(-> & [=] & _)|[Hne H]]%list_lookup_insert_Some. eauto.
  - intros u' c' H. destruct (I2 _ _ H) as (t' & o & Ht'). exists t', o.
    rewrite list_lookup_insert_ne; [done|]. intros <-. congruence.
  - intros t1 t2 r1 r2 c'
      [(-> & [=] & _)|[Hne1 H1]]%list_lookup_insert_Some
      [(-> & [=] & _)|[Hne2 H2]]%list_lookup_insert_Some; eauto.
  - intros t' r c' [(-> & [=] & _)|[Hne H]]%list_lookup_insert_Some.
    destruct (I4 _ _ _ H) as [? Hc]. split; [done|].
    intros [->%elem_of_singleton|?]%elem_of_union; [|done].
    apply Hne. eauto.
  - intros c' [->%elem_of_singleton|?]%elem_of_union; [|eauto].
    by destruct (I4 _ _ _ Ht).
Qed.

Lemma Inv_v_go (t : nat) u c :
  vs !! t = Some (Some (u, c), Some c) →
  Inv_v (<[t:=(None, None)]> vs ++ [(Some (u, c), Some c)]) mu cl (S n).
Proof.
  intros Ht. assert (Hlt := lookup_lt_Some _ _ _ Ht).
  pose proof Inv_v_unique as Hun.
  destruct HI as (I1 & I2 & I3 & I4 & I5). split_and!.
  - intros t' u' c' o [[_ H]|[_ [= <- <- <-]]]%lookup_snoc_Some.
    + apply list_lookup_insert_Some in H as [(-> & [=] & _)|[Hne H]]. eauto.
    + split; [done|]. by destruct (I1 _ _ _ _ Ht).
  - intros u' c' H. destruct (I2 _ _ H) as (t' & o & Ht').
    destruct (decide (t' = t)) as [->|Hne].
    + rewrite Ht in Ht'. injection Ht' as <- <- <-.
      exists (List.length (<[t:=(None, None)]> vs)), (Some c).
      apply lookup_snoc_Some. by right.
    + exists t', o. apply lookup_app_l_Some.
      by rewrite list_lookup_insert_ne.
  - assert (∀ (t' : nat) r, <[t:=(None, None)]> vs !! t' = Some (r, Some c) → False) as Hno.
    { intros t' r [(-> & ? & _)|[Hne H]]%list_lookup_insert_Some; [simplify_eq|].
      apply Hne. exact (I3 _ _ _ _ _ Ht H). }
    intros t1 t2 r1 r2 c'
      [[_ H1]|[-> ?]]%lookup_snoc_Some
      [[_ H2]|[-> ?]]%lookup_snoc_Some; simplify_eq; try done.
    + apply list_lookup_insert_Some in H1 as [(-> & ? & _)|[Hne1 H1]]; [simplify_eq|].
      apply list_lookup_insert_Some in H2 as [(-> & ? & _)|[Hne2 H2]]; [simplify_eq|].
      exact (I3 _ _ _ _ _ H1 H2).
    + destruct (Hno _ _ H1).
    + destruct (Hno _ _ H2).
  - intros t' r c' [[_ H]|[_ [= <- <-]]]%lookup_snoc_Some.
    + apply list_lookup_insert_Some in H as [(-> & ? & _)|[Hne H]]; [simplify_eq|].
      destruct (I4 _ _ _ H). split; [lia|done].
    + destruct (I4 _ _ _ Ht). split; [lia|done].
  - intros c' H. specialize (I5 _ H). lia.
Qed.

Lemma Inv_v_same (t : nat) v :
  vs !! t = Some v → Inv_v (<[t:=v]> vs) mu cl n.
Proof. intros Ht. by rewrite list_insert_id. Qed.

End InvLemmas.

Section BufLemmas.
Context (ss : list (option chan)) (ec : gmap chan (option error)) (n : chan).
Hypothesis HB : Buf_v ss ec n.

Lemma Buf_v_make_chan : Buf_v ss ec (S n).
Proof.
  destruct HB as (B1 & B2 & B3). split_and!; [|done|].
  - intros t e H. destruct (B1 _ _ H). split; [lia|done].
  - intros e H. apply B3. lia.
Qed.

Lemma Buf_v_arrive : Buf_v (ss ++ [None]) ec n.
Proof.
  destruct HB as (B1 & B2 & B3). split_and!; [| |done].
  - intros t e [[_ H]|[_ H]]%lookup_snoc_Some; [eauto|done].
  - intros t1 t2 e [[_ H1]|[_ H1]]%lookup_snoc_Some
      [[_ H2]|[_ H2]]%lookup_snoc_Some; try done. eauto.
Qed.

Lemma Buf_v_go (t : nat) :
  ss !! t = Some None → Buf_v (<[t:=None]> ss ++ [Some n]) ec (S n).
Proof.
  intros Ht. rewrite list_insert_id by done.
  destruct HB as (B1 & B2 & B3). split_and!.
  - intros t' e [[_ H]|[_ ?]]%lookup_snoc_Some; simplify_eq.
    + destruct (B1 _ _ H). split; [lia|done].
    + split; [lia|]. by apply B3.
  - intros t1 t2 e [[_ H1]|[-> ?]]%lookup_snoc_Some
      [[_ H2]|[-> ?]]%lookup_snoc_Some; simplify_eq; try done.
    + exact (B2 _ _ _ H1 H2).
    + destruct (B1 _ _ H1); lia.
    + destruct (B1 _ _ H2); lia.
  - intros e H. apply B3. lia.
Qed.

Lemma Buf_v_send (t : nat) e err :
  ss !! t = Some (Some e) → Buf_v (<[t:=None]> ss) (<[e:=err]> ec) n.
Proof.
  intros Ht. destruct HB as (B1 & B2 & B3). split_and!.
  - intros t' e' [(-> & ? & _)|[Hne H]]%list_lookup_insert_Some; simplify_eq.
    destruct (B1 _ _ H). split; [done|].
    rewrite lookup_insert_ne; [done|]. intros <-. apply Hne. exact (B2 _ _ _ Ht H).
  - intros t1 t2 e' [(-> & ? & _)|[Hne1 H1]]%list_lookup_insert_Some
      [(-> & ? & _)|[Hne2 H2]]%list_lookup_insert_Some; simplify_eq.
    exact (B2 _ _ _ H1 H2).
  - intros e' H. destruct (B1 _ _ Ht).
    rewrite lookup_insert_ne; [by apply B3|]. lia.
Qed.

Lemma Buf_v_recv e : Buf_v ss (delete e ec) n.
Proof.
  destruct HB as (B1 & B2 & B3). split_and!; [|done|].
  - intros t e' H. destruct (B1 _ _ H). split; [done|].
    apply lookup_delete_None. by right.
  - intros e' H. apply lookup_delete_None. right. by apply B3.
Qed.

Lemma Buf_v_same (t : nat) v : ss !! t = Some v → Buf_v (<[t:=v]> ss) ec n.
Proof. intros Ht. by rewrite list_insert_id. Qed.

End BufLemmas.

(** ** The reservation invariant holds in every reachable state *)

Section Preservation.
Variable IsValidDomain : string -> bool.
Variable path_Join : string -> string -> string.
Variable ErrNotOK_text : string.
Variable m : MirrorHandler.

Abbreviation step' := (step IsValidDomain path_Join ErrNotOK_text m).
Abbreviation run' := (run IsValidDomain path_Join ErrNotOK_text m).
Abbreviation exec' := (exec IsValidDomain path_Join ErrNotOK_text m).
Abbreviation reachable' := (reachable IsValidDomain path_Join ErrNotOK_text m).

Lemma view_lookup (s : State) (t : tid) th :
  threads s !! t = Some th → (view <$> threads s) !! t = Some (view th).
Proof. intros H. by rewrite list_lookup_fmap, H. Qed.

Lemma run_Inv t th io s s' :
  Inv s → threads s !! t = Some th → run' t th io s = Some s' → Inv s'.
Proof.
  intros HI Ht Hrun. apply view_lookup in Ht. unfold Inv in *.
  unfold run in Hrun. unfold view in Ht.
  destruct (pc th) eqn:Hpc; destruct io; try discriminate; simpl in Ht;
    repeat case_match; simplify_eq; unfold_state;
    rewrite ?fmap_app, ?list_fmap_insert; unfold view, fail_with, redirect;
    repeat case_match;
    cbn [pc at_pc respond reserved closing fmap list_fmap option_fmap option_map snd];
    try (by apply Inv_v_same);
    try (by apply Inv_v_make_chan, Inv_v_same).
  - by apply Inv_v_store.
  - by apply Inv_v_go.
  - by apply Inv_v_delete.
  - destruct HI as (_ & _ & _ & I4 & _). destruct (I4 _ _ _ Ht) as [_ Hc].
    destruct Hc. by eapply bool_decide_eq_true.
  - by apply Inv_v_close.
Qed.

Lemma end_ctx_Some t e s s' :
  end_ctx t e s = Some s' →
  ∃ th, threads s !! t = Some th ∧ ctx th = CtxLive ∧
        s' = set_thread t {| ctx := CtxDone e; written := written th; pc := pc th |} s.
Proof.
  unfold end_ctx. intros H. destruct (threads s !! t) as [th|]; [|done].
  destruct (ctx th) eqn:Hc; simplify_eq. eauto.
Qed.

Lemma end_ctx_Inv t e s s' : Inv s → end_ctx t e s = Some s' → Inv s'.
Proof.
  intros HI (th & Ht & _ & ->)%end_ctx_Some. unfold Inv in *. unfold_state.
  rewrite list_fmap_insert. apply Inv_v_same; [done|].
  by apply view_lookup in Ht.
Qed.

Lemma Inv_init st : Inv (init st).
Proof.
  unfold Inv, Inv_v, init; simpl. split_and!; done.
Qed.

Lemma step_Inv a s s' : Inv s → step' a s = Some s' → Inv s'.
Proof.
  intros HI H. destruct a; simpl in H.
  - injection H as <-. unfold Inv in *. unfold_state.
    rewrite fmap_app. by apply Inv_v_arrive.
  - by eapply end_ctx_Inv.
  - by eapply end_ctx_Inv.
  - destruct (threads s !! t) as [th|] eqn:Ht; [|done]. by eapply run_Inv.
Qed.

(** Induction over the actions that lead to a reachable state. *)
Lemma exec_invariant (P : State → Prop) :
  (∀ a s s', P s → step' a s = Some s' → P s') →
  ∀ acts s s', P s → exec' acts s = Some s' → P s'.
Proof.
  intros Hstep acts. induction acts as [|a acts IH]; intros s s' HP H; simpl in H.
  - by injection H as <-.
  - destruct (step' a s) as [s1|] eqn:Hs; [|done]. eauto.
Qed.

Lemma reachable_invariant (P : State → Prop) :
  (∀ st, P (init st)) →
  (∀ a s s', P s → step' a s = Some s' → P s') →
  ∀ s, reachable' s → P s.
Proof. intros H0 Hstep s (st & acts & H). eapply exec_invariant; eauto. Qed.

Lemma reachable_Inv s : reachable' s → Inv s.
Proof. apply reachable_invariant; [apply Inv_init|apply step_Inv]. Qed.

Lemma reachable_exec acts s s' : reachable' s → exec' acts s = Some s' → reachable' s'.
Proof.
  intros (st & acts0 & H0) H. exists st, (acts0 ++ acts)%list.
  revert H0. generalize (init st). induction acts0 as [|a acts0 IH]; intros s0 H0; simpl in *.
  - by injection H0 as ->.
  - destruct (step' a s0); [|done]. eauto.
Qed.

(** *** The result channels *)

Lemma sending_lookup (s : State) (t : tid) th :
  threads s !! t = Some th →
  ((λ th, sending (pc th)) <$> threads s) !! t = Some (sending (pc th)).
Proof. intros H. by rewrite list_lookup_fmap, H. Qed.

Lemma run_Buf t th io s s' :
  Buf s → threads s !! t = Some th → run' t th io s = Some s' → Buf s'.
Proof.
  intros HB Ht Hrun. apply sending_lookup in Ht. unfold Buf in *.
  unfold run in Hrun.
  destruct (pc th) eqn:Hpc; destruct io; try discriminate; simpl in Ht;
    repeat case_match; simplify_eq; unfold_state;
    rewrite ?fmap_app, ?list_fmap_insert; unfold fail_with, redirect;
    repeat case_match;
    cbn [pc at_pc respond sending fmap list_fmap];
    try (by apply Buf_v_same);
    try (by apply Buf_v_make_chan, Buf_v_same);
    try (by apply Buf_v_recv, Buf_v_same).
  - by apply Buf_v_go.
  - by apply Buf_v_send.
Qed.

Lemma step_Buf a s s' : Buf s → step' a s = Some s' → Buf s'.
Proof.
  intros HB H. destruct a; simpl in H.
  - injection H as <-. unfold Buf in *. unfold_state.
    rewrite fmap_app. by apply Buf_v_arrive.
  - apply end_ctx_Some in H as (th & Ht & _ & ->). unfold Buf in *. unfold_state.
    rewrite list_fmap_insert. apply Buf_v_same; [done|].
    by apply sending_lookup in Ht.
  - apply end_ctx_Some in H as (th & Ht & _ & ->). unfold Buf in *. unfold_state.
    rewrite list_fmap_insert. apply Buf_v_same; [done|].
    by apply sending_lookup in Ht.
  - destruct (threads s !! t) as [th|] eqn:Ht; [|done]. by eapply run_Buf.
Qed.

Lemma reachable_Buf s : reachable' s → Buf s.
Proof.
  apply reachable_invariant; [|apply step_Buf].
  intros st. unfold Buf, Buf_v, init; simpl. split_and!; done.
Qed.

(** *** The locals agree with [RedirectLinks] *)




(** *** Populate goroutines run under the background context *)




(** *** The shape of a step *)


(** *** Every populate goroutine runs [doneCache] once *)










End Preservation.

(** * The claims *)

(** ** The request resolver *)

Section ResolverClaims.
Variable IsValidDomain : string -> bool.
Variable path_Join : string -> string -> string.
Variable ErrNotOK_text : string.
Variable m : MirrorHandler.

Abbreviation step0 := (step IsValidDomain path_Join ErrNotOK_text m).

Lemma method_allowed (r : Request) :
  Method r = "GET" ∨ Method r = "HEAD" →
  negb (String.eqb (Method r) "GET") && negb (String.eqb (Method r) "HEAD") = false.
Proof. intros [->| ->]; reflexivity. Qed.

Lemma blocked_existsb (path pre suffix : string) :
  suffix ∈ BlockSuffix m → path = pre ++ suffix →
  existsb (strings.HasSuffix path) (BlockSuffix m) = true.
Proof.
  intros Hin ->. apply existsb_exists. exists suffix. split.
  - by apply list_elem_of_In.
  - apply HasSuffix_spec. eauto.
Qed.

(** C8.  A GET or HEAD request whose path ends with a configured blocked
    suffix is answered 403 Forbidden, and that is all the handler does:
    its goroutine's only statement writes the response and returns; the
    in-flight map, the channels, the store and the trace of calls are
    left as they were, and no goroutine is started. *)
Theorem blocked_suffix_forbidden (r : Request) (pre suffix : string) :
  Method r = "GET" ∨ Method r = "HEAD" →
  suffix ∈ BlockSuffix m →
  UPath (RURL r) = pre ++ suffix →
  ServeHTTP IsValidDomain m r = Respond (HttpError StatusForbidden "Forbidden") ∧
  ∀ s (t : tid) th io s',
    threads s !! t = Some th → pc th = Entry r → step0 (Run t io) s = Some s' →
    io = Local ∧
    threads s' =
      <[t:={| ctx := ctx th; written := Some (HttpError 403 "Forbidden"); pc := Returned |}]>
        (threads s) ∧
    mut s' = mut s ∧ closed s' = closed s ∧ errChs s' = errChs s ∧
    next_chan s' = next_chan s ∧ store s' = store s ∧ trace s' = trace s ∧
    ∀ io', step0 (Run t io') s' = None.
Proof.
  intros Hm Hin Hpath.
  assert (ServeHTTP IsValidDomain m r = Respond (HttpError StatusForbidden "Forbidden")) as HS.
  { unfold ServeHTTP. rewrite method_allowed by done.
    by rewrite (blocked_existsb _ pre suffix). }
  split; [done|]. intros s t th io s' Ht Hpc Hstep.
  assert (Hlt := lookup_lt_Some _ _ _ Ht).
  simpl in Hstep. rewrite Ht in Hstep. unfold run in Hstep. rewrite Hpc in Hstep.
  destruct io; try discriminate. rewrite HS in Hstep. injection Hstep as <-.
  split_and!; try done. intros io'. simpl.
  rewrite list_lookup_insert_eq by done. by destruct io'.
Qed.

(** C9.  In host-from-first-path mode the path without its leading
    slash is split on "/": the first segment is the host and the other
    segments, joined again, are the new path.  So [/h/rest] resolves to
    host [h] and path [/rest], and a path of one segment, whose
    remainder is empty, is answered not-found; in particular
    [/example.com/a/b] goes on with host [example.com] and path [/a/b],
    and [/onlyhost] is not found. *)
Theorem host_from_first_path :
  HostFromFirstPath m = true →
  (∀ host0 h rest,
     "/"%char ∉ list_ascii_of_string h → rest ≠ EmptyString →
     resolveHostPath m host0 ("/" ++ h ++ "/" ++ rest) = Some (h, "/" ++ rest)) ∧
  (∀ r h,
     Method r = "GET" ∨ Method r = "HEAD" →
     existsb (strings.HasSuffix (UPath (RURL r))) (BlockSuffix m) = false →
     "/"%char ∉ list_ascii_of_string h →
     UPath (RURL r) = "/" ++ h →
     ServeHTTP IsValidDomain m r = Respond NotFoundResponse) ∧
  (∀ r,
     Method r = "GET" ∨ Method r = "HEAD" →
     existsb (strings.HasSuffix (UPath (RURL r))) (BlockSuffix m) = false →
     IsValidDomain "example.com" = true → BaseDomain m = EmptyString →
     UPath (RURL r) = "/example.com/a/b" →
     ∃ r', (ServeHTTP IsValidDomain m r = ToDirect r' ∨
            ServeHTTP IsValidDomain m r = ToCache r') ∧
           Host r' = "example.com" ∧
           RURL r' = {| Scheme := "https"; UHost := "example.com"; UPath := "/a/b" |}).
Proof.
  intros Hmode. split_and!.
  - intros host0 h rest Hh Hrest. unfold resolveHostPath. rewrite Hmode.
    rewrite !append_cons, !append_nil_l, slice_from_1.
    rewrite Split_first by done. simpl hd. simpl tl.
    rewrite (Join_Split rest "/"%char).
    destruct (String.eqb_spec (String "/" rest) "/") as [E|_]; [|done].
    injection E as E. done.
  - intros r h Hm Hblock Hh Hpath. unfold ServeHTTP.
    rewrite method_allowed, Hblock by done.
    destruct (_ || _); [done|].
    replace (resolveHostPath m (Host r) (UPath (RURL r))) with (@None (string * string));
      [done|].
    unfold resolveHostPath. rewrite Hmode, Hpath.
    rewrite !append_cons, !append_nil_l, slice_from_1, Split_single by done.
    done.
  - intros r Hm Hblock Hvalid Hbase Hpath. unfold ServeHTTP.
    rewrite method_allowed, Hblock by done. rewrite Hpath.
    unfold resolveHostPath, stripBaseDomain. rewrite Hmode, Hbase. simpl.
    rewrite Hvalid. simpl.
    destruct (negb (RemoteCache m) || _); eexists; (split; [eauto|done]).
Qed.

End ResolverClaims.

Lemma blocked_suffix_forbidden_witness :
  (Method (get_request "/example.com/setup.exe") = "GET" ∨
   Method (get_request "/example.com/setup.exe") = "HEAD") ∧
  ".exe" ∈ BlockSuffix handler0 ∧
  UPath (RURL (get_request "/example.com/setup.exe")) = "/example.com/setup" ++ ".exe" ∧
  ServeHTTP any_domain handler0 (get_request "/example.com/setup.exe")
    = Respond (HttpError StatusForbidden "Forbidden").
Proof.
  assert (H1 : Method (get_request "/example.com/setup.exe") = "GET" ∨
               Method (get_request "/example.com/setup.exe") = "HEAD")
    by (left; reflexivity).
  assert (H2 : ".exe" ∈ BlockSuffix handler0) by (simpl; apply list_elem_of_here).
  assert (H3 : UPath (RURL (get_request "/example.com/setup.exe"))
               = "/example.com/setup" ++ ".exe") by reflexivity.
  split_and!; [exact H1|exact H2|exact H3|].
  exact (proj1 (blocked_suffix_forbidden any_domain join_clean "not ok" handler0
                  (get_request "/example.com/setup.exe") "/example.com/setup" ".exe"
                  H1 H2 H3)).
Defined.

Lemma host_from_first_path_witness :
  HostFromFirstPath handler0 = true ∧
  resolveHostPath handler0 "mirror.local" ("/" ++ "example.com" ++ "/" ++ "a/b")
    = Some ("example.com", "/" ++ "a/b").
Proof.
  split; [reflexivity|].
  apply (proj1 (host_from_first_path any_domain handler0 eq_refl)).
  - vm_compute. intros H. repeat (apply elem_of_cons in H as [H|H]; [discriminate H|]).
    by apply elem_of_nil in H.
  - discriminate.
Defined.

(** ** The cache coordinator *)

Section CoordinatorClaims.
Variable IsValidDomain : string -> bool.
Variable path_Join : string -> string -> string.
Variable ErrNotOK_text : string.
Variable m : MirrorHandler.

Abbreviation step1 := (step IsValidDomain path_Join ErrNotOK_text m).
Abbreviation run1 := (run IsValidDomain path_Join ErrNotOK_text m).
Abbreviation exec1 := (exec IsValidDomain path_Join ErrNotOK_text m).
Abbreviation reachable1 := (reachable IsValidDomain path_Join ErrNotOK_text m).

Lemma exec_cons_run t th io acts s s1 :
  threads s !! t = Some th → run1 t th io s = Some s1 →
  exec1 (Run t io :: acts) s = exec1 acts s1.
Proof. intros Ht Hrun. simpl. by rewrite Ht, Hrun. Qed.

Lemma step_run t th io s :
  threads s !! t = Some th → step1 (Run t io) s = run1 t th io s.
Proof. intros Ht. simpl. by rewrite Ht. Qed.

(** Run the next action of a list, given how its goroutine steps. *)
Ltac run_step tac :=
  erewrite exec_cons_run;
  [ | lookup_thread
    | unfold run; cbn [pc at_pc respond redirect ctx written]; tac; reflexivity ].

Lemma trustCache_spec cacheSize sourceSize :
  trustCache cacheSize sourceSize = true ↔
  cacheSize ≠ 0 ∧ (sourceSize ≤ 0 ∨ sourceSize = cacheSize).
Proof.
  unfold trustCache.
  rewrite andb_true_iff, orb_true_iff, negb_true_iff, Z.eqb_neq, Z.leb_le, Z.eqb_eq.
  done.
Qed.

(** C3.  On a hit with freshness checking enabled and a successful HEAD
    probe, the handler redirects to the cached URL exactly when the
    cached size that [Stat] reported (any [int64], also a negative one)
    is nonzero and the origin size is non-positive or equal to it;
    otherwise it writes nothing yet and starts a populate, whose [Put]
    replaces the stored object. *)
Theorem freshness_decision s (t : tid) th l closeCh obj cacheSize sourceSize :
  CheckSyncTimeout m ≠ 0 →
  threads s !! t = Some th → pc th = AtStat l closeCh →
  store s !! l_file l = Some obj →
  let trusted := cacheSize ≠ 0 ∧ (sourceSize ≤ 0 ∨ sourceSize = cacheSize) in
  ∃ s',
    exec1 [Run t (StatOk cacheSize); Run t (HeadOk sourceSize)] s = Some s' ∧
    store s' = store s ∧ mut s' = mut s ∧
    (trusted →
       threads s' = <[t:={| ctx := ctx th;
                            written := Some (HttpRedirect (l_u l) StatusFound);
                            pc := AtDelete l closeCh |}]> (threads s)) ∧
    (¬ trusted →
       threads s' = <[t:={| ctx := ctx th; written := written th;
                            pc := AtGo l closeCh |}]> (threads s) ∧
       ∀ contentLength body, contentLength ≠ 0 →
         ∃ s'', exec1 [Run t Local;
                       Run (List.length (threads s)) (GetOk contentLength body);
                       Run (List.length (threads s)) PutOk] s' = Some s'' ∧
                store s'' =
                  <[l_file l := if 0 <? contentLength
                                then take (Z.to_nat contentLength) body else body]>
                    (store s)).
Proof.
  intros Hto Ht Hpc Hobj trusted.
  assert (Hlt := lookup_lt_Some _ _ _ Ht).
  apply Z.eqb_neq in Hto.
  pose proof (trustCache_spec cacheSize sourceSize) as Htr. fold trusted in Htr.
  eexists. split.
  { erewrite exec_cons_run; [|exact Ht|].
    2:{ unfold run. rewrite Hpc, Hobj, Hto. reflexivity. }
    erewrite exec_cons_run; [reflexivity|lookup_thread|].
    unfold run. cbn [pc at_pc]. reflexivity. }
  norm_threads.
  split_and!; [done|done| |].
  - intros Hyes. apply Htr in Hyes. by rewrite Hyes.
  - intros Hno. destruct (trustCache cacheSize sourceSize) eqn:E.
    { destruct Hno. by apply Htr. }
    split; [done|]. intros contentLength body Hcl.
    apply Z.eqb_neq in Hcl.
    destruct (0 <? contentLength) eqn:Hpos.
    all: eexists; split;
      [ erewrite exec_cons_run; [|lookup_thread|];
        [|unfold run; cbn [pc at_pc]; reflexivity];
        erewrite exec_cons_run; [|lookup_thread|];
        [|unfold run; cbn [pc]; unfold cacheFileBody; rewrite Hcl, Hpos; reflexivity];
        erewrite exec_cons_run; [reflexivity|lookup_thread|];
        unfold run; cbn [pc at_pc]; reflexivity
      | done ].
Qed.

(** C2 (amended).  A hit for which [Stat] reports size 0 is treated as a miss,
    and a populate is started instead of a redirect, when a
    freshness-check timeout is configured and the HEAD probe succeeds,
    whatever size the origin reports.  Without a timeout, or when the
    probe fails, the handler redirects to the cached URL. *)
Theorem empty_entry_refetch s (t : tid) th l closeCh obj :
  threads s !! t = Some th → pc th = AtStat l closeCh →
  store s !! l_file l = Some obj →
  let redirected :=
    <[t:={| ctx := ctx th; written := Some (HttpRedirect (l_u l) StatusFound);
            pc := AtDelete l closeCh |}]> (threads s) in
  (CheckSyncTimeout m ≠ 0 →
     ∀ sourceSize, ∃ s',
       exec1 [Run t (StatOk 0); Run t (HeadOk sourceSize)] s = Some s' ∧
       threads s' = <[t:={| ctx := ctx th; written := written th;
                            pc := AtGo l closeCh |}]> (threads s)) ∧
  (CheckSyncTimeout m ≠ 0 →
     ∀ err, ∃ s',
       exec1 [Run t (StatOk 0); Run t (Fails err)] s = Some s' ∧
       threads s' = redirected) ∧
  (CheckSyncTimeout m = 0 →
     ∃ s', exec1 [Run t (StatOk 0)] s = Some s' ∧ threads s' = redirected).
Proof.
  intros Ht Hpc Hobj redirected. assert (Hlt := lookup_lt_Some _ _ _ Ht).
  split_and!.
  - intros Hto%Z.eqb_neq sourceSize. eexists. split.
    + run_step ltac:(rewrite Hpc, Hobj, Hto).
      run_step idtac. reflexivity.
    + by norm_threads.
  - intros Hto%Z.eqb_neq err. eexists. split.
    + run_step ltac:(rewrite Hpc, Hobj, Hto).
      run_step idtac. reflexivity.
    + by norm_threads.
  - intros Hto%Z.eqb_eq. eexists. split.
    + run_step ltac:(rewrite Hpc, Hobj, Hto). reflexivity.
    + by norm_threads.
Qed.

(** C4.  On a hit with freshness checking enabled, a HEAD probe that
    fails (or times out) is answered with a redirect to the cached URL:
    the handler then deletes its reservation, closes its channel and
    returns.  No populate goroutine is started, nothing is fetched or
    put, and the response is not an error. *)
Theorem probe_failure_serves_cache s (t : tid) th l closeCh obj cacheSize err :
  reachable1 s →
  CheckSyncTimeout m ≠ 0 →
  threads s !! t = Some th → pc th = AtStat l closeCh →
  store s !! l_file l = Some obj →
  ∃ s',
    exec1 [Run t (StatOk cacheSize); Run t (Fails err); Run t Local; Run t Local] s
      = Some s' ∧
    threads s' =
      <[t:={| ctx := ctx th; written := Some (HttpRedirect (l_u l) StatusFound);
              pc := Returned |}]> (threads s) ∧
    mut s' = delete (l_u l) (mut s) ∧
    closed s' = {[closeCh]} ∪ closed s ∧
    store s' = store s ∧
    trace s' = EvClose t closeCh :: EvDelete t (l_u l) :: EvHead t (l_url l)
               :: EvStat t (l_file l) :: trace s.
Proof.
  intros Hr Hto%Z.eqb_neq Ht Hpc Hobj. assert (Hlt := lookup_lt_Some _ _ _ Ht).
  assert (closeCh ∉ closed s) as Hopen.
  { apply reachable_Inv in Hr. destruct Hr as (_ & _ & _ & I4 & _).
    apply view_lookup in Ht. unfold view in Ht. rewrite Hpc in Ht.
    by destruct (I4 _ _ _ Ht). }
  eexists. split.
  - run_step ltac:(rewrite Hpc, Hobj, Hto).
    run_step idtac. run_step idtac.
    run_step ltac:(unfold_state; rewrite bool_decide_eq_false_2 by done).
    reflexivity.
  - by norm_threads.
Qed.

(** C10.  When [Stat] returns an error wrapping [context.Canceled]
    while the caller's context is not done, [ctx.Err()] is nil and
    [errorResponse] panics on it: nothing is written, the reservation
    stays in the in-flight map with its channel open, and the goroutine
    executes nothing more.  With a context that is done the same branch
    writes the error response and goes on to [doneCache]. *)
Theorem stat_canceled_live_context_panics s (t : tid) th l closeCh err :
  reachable1 s →
  threads s !! t = Some th → pc th = AtStat l closeCh →
  errors_Is err Canceled = true →
  (ctx_Err (ctx th) = None →
     errorResponse ErrNotOK_text (ctx_Err (ctx th)) = None ∧
     ∃ s', step1 (Run t (Fails err)) s = Some s' ∧
       threads s' = <[t:={| ctx := ctx th; written := written th;
                            pc := Panicked (Some (l_u l, closeCh)) |}]> (threads s) ∧
       mut s' !! l_u l = Some closeCh ∧ (closeCh ∉ closed s') ∧
       ∀ io, step1 (Run t io) s' = None) ∧
  (∀ e, ctx th = CtxDone e →
     ∃ s', step1 (Run t (Fails err)) s = Some s' ∧
       threads s' =
         <[t:={| ctx := ctx th;
                 written := Some (HttpError StatusInternalServerError (Error ErrNotOK_text e));
                 pc := AtDelete l closeCh |}]> (threads s)).
Proof.
  intros Hr Ht Hpc Herr. assert (Hlt := lookup_lt_Some _ _ _ Ht).
  assert (mut s !! l_u l = Some closeCh ∧ closeCh ∉ closed s) as [Hmut Hopen].
  { apply reachable_Inv in Hr. destruct Hr as (I1 & _ & _ & I4 & _).
    apply view_lookup in Ht. unfold view in Ht. rewrite Hpc in Ht. simpl in Ht.
    destruct (I1 _ _ _ _ Ht). by destruct (I4 _ _ _ Ht). }
  split.
  - intros Hnil. rewrite Hnil. split; [done|].
    rewrite (step_run _ _ _ _ Ht). unfold run. rewrite Hpc, Herr.
    unfold fail_with. rewrite Hnil. simpl errorResponse. cbv iota.
    eexists. split; [reflexivity|]. unfold_state. split_and!; try done.
    intros io. simpl. rewrite list_lookup_insert_eq by done. by destruct io.
  - intros e He. rewrite (step_run _ _ _ _ Ht). unfold run. rewrite Hpc, Herr.
    unfold fail_with. replace (ctx_Err (ctx th)) with (Some e) by (by rewrite He).
    eexists. split; [reflexivity|]. done.
Qed.



(** C7 (amended).  A caller whose context has been cancelled is answered
    with the failure built from [ctx.Err()], 500 with the text of
    [context.Canceled], when [Stat] returns an error wrapping the
    cancellation, and when one of the two [select]s takes its
    [ctx.Done()] case.  That case can always be taken, and it is the only
    one while the awaited channel is not ready.  When the awaited channel
    is ready as well the [select] may take it instead: the caller that
    waits for a reservation then retries the [LoadOrStore], and the
    caller of a populate is answered with the populate's result.  The
    cancellation failure is no redirect and no not-found, and its text
    differs from that of a deadline; it has the status of every
    [errorResponse], and a populate error is answered with the same
    response exactly when it has the same text. *)
Theorem cancellation_surfaced s (t : tid) th :
  threads s !! t = Some th → ctx th = CtxDone Canceled →
  let failure := HttpError StatusInternalServerError "context canceled" in
  let canceled := {| ctx := ctx th; written := Some failure; pc := Returned |} in
  (errorResponse ErrNotOK_text (ctx_Err (ctx th)) = Some failure ∧
   errorResponse ErrNotOK_text (Some DeadlineExceeded) ≠ Some failure ∧
   ∀ u err, populateResponse ErrNotOK_text u err = Some failure ↔
            ∃ e, err = Some e ∧ errors_Is e ErrNotOK = false ∧
                 Error ErrNotOK_text e = "context canceled") ∧
  (∀ l closeCh err,
     pc th = AtStat l closeCh → errors_Is err Canceled = true →
     ∃ s', step1 (Run t (Fails err)) s = Some s' ∧
       threads s' = <[t:={| ctx := ctx th; written := Some failure;
                            pc := AtDelete l closeCh |}]> (threads s)) ∧
  (∀ l closeCh,
     pc th = AtSelectWait l closeCh →
     step1 (Run t OnDone) s = Some (set_thread t canceled s) ∧
     (closeCh ∉ closed s → ∀ io s', step1 (Run t io) s = Some s' → io = OnDone) ∧
     (closeCh ∈ closed s →
        step1 (Run t OnRecv) s = Some (set_thread t (at_pc th (AtLoadOrStore l)) s)) ∧
     (∀ io s', step1 (Run t io) s = Some s' → io = OnDone ∨ io = OnRecv)) ∧
  (∀ l errCh,
     pc th = AtSelectResult l errCh →
     step1 (Run t OnDone) s = Some (set_thread t canceled s) ∧
     (errChs s !! errCh = None → ∀ io s', step1 (Run t io) s = Some s' → io = OnDone) ∧
     (∀ err resp,
        errChs s !! errCh = Some err →
        populateResponse ErrNotOK_text (l_u l) err = Some resp →
        step1 (Run t OnRecv) s =
          Some (set_errChs (delete errCh (errChs s))
                  (set_thread t (respond th resp Returned) s))) ∧
     (∀ io s', step1 (Run t io) s = Some s' → io = OnDone ∨ io = OnRecv)).
Proof.
  intros Ht Hctx failure canceled.
  assert (ctx_Err (ctx th) = Some Canceled) as Herr by (by rewrite Hctx).
  split_and!.
  - by rewrite Herr.
  - discriminate.
  - intros u err. split.
    + destruct err as [e|]; [|discriminate]. simpl.
      destruct (errors_Is e ErrNotOK) eqn:Hnot; [discriminate|].
      intros [= He]. by exists e.
    + intros (e & -> & Hnot & He). simpl. rewrite Hnot. unfold failure. by rewrite <- He.
  - intros l closeCh err Hpc Hwraps.
    rewrite (step_run _ _ _ _ Ht). unfold run. rewrite Hpc, Hwraps.
    unfold fail_with. rewrite Herr.
    eexists. split; [reflexivity|]. done.
  - intros l closeCh Hpc. split_and!.
    + rewrite (step_run _ _ _ _ Ht). unfold run. rewrite Hpc.
      unfold fail_with. rewrite Herr. done.
    + intros Hopen io s'. rewrite (step_run _ _ _ _ Ht). unfold run. rewrite Hpc.
      destruct io; try done. by rewrite bool_decide_eq_false_2.
    + intros Hclosed. rewrite (step_run _ _ _ _ Ht). unfold run. rewrite Hpc.
      by rewrite bool_decide_eq_true_2.
    + intros io s'. rewrite (step_run _ _ _ _ Ht). unfold run. rewrite Hpc.
      destruct io; try done; auto.
  - intros l errCh Hpc. split_and!.
    + rewrite (step_run _ _ _ _ Ht). unfold run. rewrite Hpc.
      unfold fail_with. rewrite Herr. done.
    + intros Hempty io s'. rewrite (step_run _ _ _ _ Ht). unfold run. rewrite Hpc.
      destruct io; try done. by rewrite Hempty.
    + intros err resp Hready Hresp. rewrite (step_run _ _ _ _ Ht). unfold run.
      by rewrite Hpc, Hready, Hresp.
    + intros io s'. rewrite (step_run _ _ _ _ Ht). unfold run. rewrite Hpc.
      destruct io; try done; auto.
Qed.

Lemma sending_empty s (j : tid) th e :
  reachable1 s → threads s !! j = Some th → sending (pc th) = Some e →
  errChs s !! e = None.
Proof.
  intros Hr Ht He. apply reachable_Buf in Hr. destruct Hr as (B1 & _ & _).
  apply sending_lookup in Ht. rewrite He in Ht. by destruct (B1 _ _ Ht).
Qed.





(** C6.  When the origin's GET response declares a content length of 0,
    [cacheFile] returns [ErrNotOK] without calling [Put]: the only call
    out is the GET and the store is unchanged; the caller that receives
    this result answers not-found.  When the declared length [n] is
    positive, the object put under the key is the first [n] bytes of the
    body, the whole body when it has fewer: [min n (len body)] bytes. *)
Theorem empty_origin_not_found s (j p : tid) thj thp l lp closeCh errCh body :
  reachable1 s →
  threads s !! j = Some thj → pc thj = JobGet l closeCh errCh →
  threads s !! p = Some thp → pc thp = AtSelectResult lp errCh →
  cacheFileBody 0 body = inl ErrNotOK ∧
  (∃ s1, step1 (Run j (GetOk 0 body)) s = Some s1 ∧
     threads s1 = <[j:={| ctx := ctx thj; written := written thj;
                          pc := JobSend l closeCh errCh (Some ErrNotOK) |}]> (threads s) ∧
     trace s1 = EvGet j (l_url l) :: trace s ∧ store s1 = store s) ∧
  (∃ s', exec1 [Run j (GetOk 0 body); Run j Local; Run p OnRecv] s = Some s' ∧
     threads s' !! p =
       Some {| ctx := ctx thp; written := Some NotFoundResponse; pc := Returned |} ∧
     trace s' = EvGet j (l_url l) :: trace s ∧ store s' = store s) ∧
  (∀ contentLength, 0 < contentLength →
     let stored := take (Z.to_nat contentLength) body in
     ∃ s', exec1 [Run j (GetOk contentLength body); Run j PutOk] s = Some s' ∧
       trace s' = EvPut j (l_file l) stored None :: EvGet j (l_url l) :: trace s ∧
       store s' = <[l_file l := stored]> (store s) ∧
       List.length stored = Nat.min (Z.to_nat contentLength) (List.length body) ∧
       stored `prefix_of` body ∧
       (Z.of_nat (List.length body) ≤ contentLength → stored = body)).
Proof.
  intros Hr Hj Hpcj Hp Hpcp.
  assert (Hltj := lookup_lt_Some _ _ _ Hj). assert (Hltp := lookup_lt_Some _ _ _ Hp).
  assert (j ≠ p) as Hne by (intros ->; congruence).
  assert (errChs s !! errCh = None) as Hempty.
  { apply (sending_empty s j thj); [done|done|by rewrite Hpcj]. }
  split_and!; [done| | |].
  - rewrite (step_run _ _ _ _ Hj). unfold run. rewrite Hpcj.
    change (cacheFileBody 0 body) with (@inl error (list byte) ErrNotOK).
    eexists. split; [reflexivity|]. done.
  - eexists. split.
    + run_step ltac:(rewrite Hpcj;
                     change (cacheFileBody 0 body) with (@inl error (list byte) ErrNotOK);
                     cbv iota).
      run_step ltac:(unfold_state; rewrite Hempty).
      run_step ltac:(rewrite Hpcp; unfold_state; rewrite lookup_insert_eq; simpl).
      reflexivity.
    + norm_threads. split_and!; [|done|done].
      by rewrite list_lookup_insert_eq by (by rewrite length_insert).
  - intros contentLength Hpos stored.
    assert ((contentLength =? 0) = false) as Hnz by lia.
    assert ((0 <? contentLength) = true) as Hgt by lia.
    eexists. split.
    + run_step ltac:(rewrite Hpcj; unfold cacheFileBody, LimitReader; rewrite Hnz, Hgt).
      run_step idtac. reflexivity.
    + unfold_state. split_and!; try done.
      * unfold stored. by rewrite length_take.
      * apply prefix_take.
      * intros Hle. unfold stored. apply take_ge. lia.
Qed.







End CoordinatorClaims.

(** ** The claims on concrete runs *)

Lemma at_stat_hit_reachable :
  reachable any_domain join_clean not_ok_text handler5 at_stat_hit.
Proof. exists {[ key_a := abc ]}, to_stat. vm_compute. reflexivity. Qed.

Lemma at_stat_empty_reachable :
  reachable any_domain join_clean not_ok_text handler5 at_stat_empty.
Proof. exists {[ key_a := [] ]}, to_stat. vm_compute. reflexivity. Qed.

Lemma at_stat_canceled_reachable :
  reachable any_domain join_clean not_ok_text handler5 at_stat_canceled.
Proof. exists {[ key_a := abc ]}, (to_stat ++ [Cancel 0])%list. vm_compute. reflexivity. Qed.

Lemma at_populate_reachable :
  reachable any_domain join_clean not_ok_text handler0 at_populate.
Proof. exists ∅, to_populate. vm_compute. reflexivity. Qed.


Lemma freshness_decision_witness :
  CheckSyncTimeout handler5 ≠ 0 ∧
  threads at_stat_hit !! 0%nat = Some stat_thread ∧
  pc stat_thread = AtStat locals_a 0 ∧
  store at_stat_hit !! key_a = Some abc ∧
  ∃ s', exec5 [Run 0 (StatOk (-1)); Run 0 (HeadOk 0)] at_stat_hit = Some s' ∧
        threads s' = [{| ctx := CtxLive; written := Some (HttpRedirect u_a StatusFound);
                         pc := AtDelete locals_a 0 |}].
Proof.
  assert (H1 : CheckSyncTimeout handler5 ≠ 0) by discriminate.
  assert (H2 : threads at_stat_hit !! 0%nat = Some stat_thread) by (vm_compute; reflexivity).
  assert (H3 : pc stat_thread = AtStat locals_a 0) by (vm_compute; reflexivity).
  assert (H4 : store at_stat_hit !! l_file locals_a = Some abc) by (vm_compute; reflexivity).
  split_and!; [exact H1|exact H2|exact H3|exact H4|].
  destruct (freshness_decision any_domain join_clean not_ok_text handler5
              at_stat_hit 0%nat stat_thread locals_a 0%nat abc (-1) 0 H1 H2 H3 H4)
    as (s' & Hexec & _ & _ & Hyes & _).
  exists s'. split; [exact Hexec|]. rewrite Hyes; [vm_compute; reflexivity|].
  split; [discriminate|left; vm_compute; discriminate].
Defined.

(** C2, as stated, fails.  Without a freshness-check timeout a hit on an
    entry of size 0 is answered with a redirect, and so is one whose
    HEAD probe fails when a timeout is configured: the request runs to
    its end without any GET or Put, and the empty object stays. *)
Lemma empty_entry_redirect_counterexample :
  (∃ s, exec0 hit_to_end (init {[ key_a := [] ]}) = Some s ∧
        threads s = [{| ctx := CtxLive; written := Some (HttpRedirect u_a StatusFound);
                        pc := Returned |}] ∧
        trace s = [EvClose 0 0; EvDelete 0 u_a; EvStat 0 key_a; EvStore 0 u_a 0] ∧
        store s !! key_a = Some []) ∧
  (∃ s, exec5 hit_probe_fails_to_end (init {[ key_a := [] ]}) = Some s ∧
        threads s = [{| ctx := CtxLive; written := Some (HttpRedirect u_a StatusFound);
                        pc := Returned |}] ∧
        trace s = [EvClose 0 0; EvDelete 0 u_a; EvHead 0 (l_url locals_a);
                   EvStat 0 key_a; EvStore 0 u_a 0] ∧
        store s !! key_a = Some []).
Proof.
  split.
  - exists (state_of (exec0 hit_to_end (init {[ key_a := [] ]}))).
    split_and!; vm_compute; reflexivity.
  - exists (state_of (exec5 hit_probe_fails_to_end (init {[ key_a := [] ]}))).
    split_and!; vm_compute; reflexivity.
Qed.

Lemma empty_entry_refetch_witness :
  threads at_stat_empty !! 0%nat = Some stat_thread ∧
  pc stat_thread = AtStat locals_a 0 ∧
  store at_stat_empty !! key_a = Some [] ∧
  CheckSyncTimeout handler5 ≠ 0 ∧
  ∃ s', exec5 [Run 0 (StatOk 0); Run 0 (HeadOk 0)] at_stat_empty = Some s' ∧
        threads s' = [{| ctx := CtxLive; written := None; pc := AtGo locals_a 0 |}].
Proof.
  assert (H1 : threads at_stat_empty !! 0%nat = Some stat_thread) by (vm_compute; reflexivity).
  assert (H2 : pc stat_thread = AtStat locals_a 0) by (vm_compute; reflexivity).
  assert (H3 : store at_stat_empty !! l_file locals_a = Some []) by (vm_compute; reflexivity).
  assert (H4 : CheckSyncTimeout handler5 ≠ 0) by discriminate.
  split_and!; [exact H1|exact H2|exact H3|exact H4|].
  destruct (proj1 (empty_entry_refetch any_domain join_clean not_ok_text handler5
                     at_stat_empty 0%nat stat_thread locals_a 0%nat [] H1 H2 H3) H4 0)
    as (s' & Hexec & Hths).
  exists s'. split; [exact Hexec|]. rewrite Hths. vm_compute. reflexivity.
Defined.

Lemma probe_failure_serves_cache_witness :
  reachable any_domain join_clean not_ok_text handler5 at_stat_hit ∧
  CheckSyncTimeout handler5 ≠ 0 ∧
  threads at_stat_hit !! 0%nat = Some stat_thread ∧
  pc stat_thread = AtStat locals_a 0 ∧
  store at_stat_hit !! key_a = Some abc ∧
  ∃ s', exec5 [Run 0 (StatOk 3); Run 0 (Fails DeadlineExceeded); Run 0 Local; Run 0 Local]
          at_stat_hit = Some s' ∧
        threads s' = [{| ctx := CtxLive; written := Some (HttpRedirect u_a StatusFound);
                         pc := Returned |}] ∧
        mut s' !! u_a = None.
Proof.
  assert (H1 : CheckSyncTimeout handler5 ≠ 0) by discriminate.
  assert (H2 : threads at_stat_hit !! 0%nat = Some stat_thread) by (vm_compute; reflexivity).
  assert (H3 : pc stat_thread = AtStat locals_a 0) by (vm_compute; reflexivity).
  assert (H4 : store at_stat_hit !! l_file locals_a = Some abc) by (vm_compute; reflexivity).
  split_and!; [exact at_stat_hit_reachable|exact H1|exact H2|exact H3|exact H4|].
  destruct (probe_failure_serves_cache any_domain join_clean not_ok_text handler5
              at_stat_hit 0%nat stat_thread locals_a 0%nat abc 3 DeadlineExceeded
              at_stat_hit_reachable H1 H2 H3 H4)
    as (s' & Hexec & Hths & Hmut & _).
  exists s'. split_and!; [exact Hexec|rewrite Hths; vm_compute; reflexivity|].
  rewrite Hmut. apply lookup_delete_eq.
Defined.

Lemma stat_canceled_live_context_panics_witness :
  reachable any_domain join_clean not_ok_text handler5 at_stat_hit ∧
  threads at_stat_hit !! 0%nat = Some stat_thread ∧
  pc stat_thread = AtStat locals_a 0 ∧
  errors_Is (Wrap "stat: context canceled" Canceled) Canceled = true ∧
  ctx_Err (ctx stat_thread) = None ∧
  ∃ s', step any_domain join_clean not_ok_text handler5
          (Run 0 (Fails (Wrap "stat: context canceled" Canceled))) at_stat_hit = Some s' ∧
        threads s' = [{| ctx := CtxLive; written := None;
                         pc := Panicked (Some (u_a, 0%nat)) |}] ∧
        mut s' !! u_a = Some 0%nat.
Proof.
  assert (H2 : threads at_stat_hit !! 0%nat = Some stat_thread) by (vm_compute; reflexivity).
  assert (H3 : pc stat_thread = AtStat locals_a 0) by (vm_compute; reflexivity).
  assert (H4 : errors_Is (Wrap "stat: context canceled" Canceled) Canceled = true)
    by (vm_compute; reflexivity).
  assert (H5 : ctx_Err (ctx stat_thread) = None) by (vm_compute; reflexivity).
  split_and!; [exact at_stat_hit_reachable|exact H2|exact H3|exact H4|exact H5|].
  destruct (proj1 (stat_canceled_live_context_panics any_domain join_clean not_ok_text
                     handler5 at_stat_hit 0%nat stat_thread locals_a 0%nat
                     (Wrap "stat: context canceled" Canceled)
                     at_stat_hit_reachable H2 H3 H4) H5)
    as (_ & s' & Hstep & Hths & Hmut & _).
  exists s'. split_and!; [exact Hstep|rewrite Hths; vm_compute; reflexivity|exact Hmut].
Defined.

Lemma at_result_canceled_reachable :
  reachable any_domain join_clean not_ok_text handler0 at_result_canceled.
Proof.
  exists ∅, (to_populate ++ [Run 1 (GetOk 0 abc); Run 1 Local; Cancel 0])%list.
  vm_compute. reflexivity.
Qed.

(** C7, as stated, fails.  A caller that is cancelled before its
    [select] is evaluated, when the populate's result is already in
    [errCh], has both cases ready, and when the [select] takes the result
    the caller is answered not-found, with the populate's own error, or
    with a redirect.  A caller cancelled before the [select] of the
    reservation loop is evaluated, when the awaited channel is already
    closed, may retry the [LoadOrStore], win the reservation and go on
    to [Stat] with nothing written. *)
Lemma cancellation_race_counterexample :
  (∃ s, exec0 canceled_gets_not_found (init ∅) = Some s ∧
        threads s !! 0%nat =
          Some {| ctx := CtxDone Canceled; written := Some NotFoundResponse;
                  pc := Returned |}) ∧
  (∃ s, exec0 canceled_gets_populate_error (init ∅) = Some s ∧
        threads s !! 0%nat =
          Some {| ctx := CtxDone Canceled;
                  written := Some (HttpError StatusInternalServerError
                                     "connection refused");
                  pc := Returned |}) ∧
  (∃ s, exec0 canceled_gets_redirect (init ∅) = Some s ∧
        threads s !! 0%nat =
          Some {| ctx := CtxDone Canceled;
                  written := Some (HttpRedirect u_a StatusFound);
                  pc := Returned |}) ∧
  (∃ s, exec0 canceled_waiter_retries (init {[ key_a := abc ]}) = Some s ∧
        threads s !! 1%nat =
          Some {| ctx := CtxDone Canceled; written := None;
                  pc := AtStat locals_a 2 |} ∧
        mut s !! u_a = Some 2%nat).
Proof.
  split_and!.
  - exists (state_of (exec0 canceled_gets_not_found (init ∅))).
    split; vm_compute; reflexivity.
  - exists (state_of (exec0 canceled_gets_populate_error (init ∅))).
    split; vm_compute; reflexivity.
  - exists (state_of (exec0 canceled_gets_redirect (init ∅))).
    split; vm_compute; reflexivity.
  - exists (state_of (exec0 canceled_waiter_retries (init {[ key_a := abc ]}))).
    split_and!; vm_compute; reflexivity.
Qed.

Lemma cancellation_surfaced_witness :
  threads at_result_canceled !! 0%nat = Some waiting_thread_canceled ∧
  ctx waiting_thread_canceled = CtxDone Canceled ∧
  errChs at_result_canceled !! 1%nat = Some (Some ErrNotOK) ∧
  (∃ s', step any_domain join_clean not_ok_text handler0 (Run 0 OnDone)
           at_result_canceled = Some s' ∧
         threads s' !! 0%nat =
           Some {| ctx := CtxDone Canceled;
                   written := Some (HttpError StatusInternalServerError
                                      "context canceled");
                   pc := Returned |}) ∧
  (∃ s', step any_domain join_clean not_ok_text handler0 (Run 0 OnRecv)
           at_result_canceled = Some s' ∧
         threads s' !! 0%nat =
           Some {| ctx := CtxDone Canceled; written := Some NotFoundResponse;
                   pc := Returned |}).
Proof.
  assert (H1 : threads at_result_canceled !! 0%nat = Some waiting_thread_canceled)
    by (vm_compute; reflexivity).
  assert (H2 : ctx waiting_thread_canceled = CtxDone Canceled) by (vm_compute; reflexivity).
  assert (H3 : errChs at_result_canceled !! 1%nat = Some (Some ErrNotOK))
    by (vm_compute; reflexivity).
  split_and!; [exact H1|exact H2|exact H3| |].
  - destruct (proj2 (proj2 (proj2
                (cancellation_surfaced any_domain join_clean not_ok_text handler0
                   at_result_canceled 0%nat waiting_thread_canceled H1 H2)))
                locals_a 1%nat eq_refl) as (Hdone & _).
    eexists. split; [exact Hdone|]. vm_compute. reflexivity.
  - destruct (proj2 (proj2 (proj2
                (cancellation_surfaced any_domain join_clean not_ok_text handler0
                   at_result_canceled 0%nat waiting_thread_canceled H1 H2)))
                locals_a 1%nat eq_refl) as (_ & _ & Hrecv & _).
    eexists. split; [exact (Hrecv (Some ErrNotOK) NotFoundResponse H3 eq_refl)|].
    vm_compute. reflexivity.
Defined.

Lemma empty_origin_not_found_witness :
  reachable any_domain join_clean not_ok_text handler0 at_populate ∧
  threads at_populate !! 1%nat = Some job_thread ∧
  pc job_thread = JobGet locals_a 0 1 ∧
  threads at_populate !! 0%nat = Some waiting_thread ∧
  pc waiting_thread = AtSelectResult locals_a 1 ∧
  (∃ s', exec0 [Run 1 (GetOk 0 abcd); Run 1 Local; Run 0 OnRecv] at_populate = Some s' ∧
         threads s' !! 0%nat =
           Some {| ctx := CtxLive; written := Some NotFoundResponse; pc := Returned |} ∧
         trace s' = EvGet 1 (l_url locals_a) :: trace at_populate ∧
         store s' = store at_populate) ∧
  (∃ s', exec0 [Run 1 (GetOk 3 abcd); Run 1 PutOk] at_populate = Some s' ∧
         store s' !! key_a = Some abc) ∧
  (∃ s', exec0 [Run 1 (GetOk 7 abcd); Run 1 PutOk] at_populate = Some s' ∧
         store s' !! key_a = Some abcd).
Proof.
  assert (H1 : threads at_populate !! 1%nat = Some job_thread) by (vm_compute; reflexivity).
  assert (H2 : pc job_thread = JobGet locals_a 0 1) by (vm_compute; reflexivity).
  assert (H3 : threads at_populate !! 0%nat = Some waiting_thread) by (vm_compute; reflexivity).
  assert (H4 : pc waiting_thread = AtSelectResult locals_a 1) by (vm_compute; reflexivity).
  split_and!; [exact at_populate_reachable|exact H1|exact H2|exact H3|exact H4| | |].
  - destruct (proj1 (proj2 (proj2
                (empty_origin_not_found any_domain join_clean not_ok_text handler0
                   at_populate 1%nat 0%nat job_thread waiting_thread locals_a locals_a
                   0%nat 1%nat abcd at_populate_reachable H1 H2 H3 H4))))
      as (s' & Hexec & Hths & Htr & Hst).
    exists s'. split_and!; [exact Hexec|exact Hths|exact Htr|exact Hst].
  - destruct (proj2 (proj2 (proj2
                (empty_origin_not_found any_domain join_clean not_ok_text handler0
                   at_populate 1%nat 0%nat job_thread waiting_thread locals_a locals_a
                   0%nat 1%nat abcd at_populate_reachable H1 H2 H3 H4))) 3 eq_refl)
      as (s' & Hexec & _ & Hst & _).
    exists s'. split; [exact Hexec|]. rewrite Hst. vm_compute. reflexivity.
  - destruct (proj2 (proj2 (proj2
                (empty_origin_not_found any_domain join_clean not_ok_text handler0
                   at_populate 1%nat 0%nat job_thread waiting_thread locals_a locals_a
                   0%nat 1%nat abcd at_populate_reachable H1 H2 H3 H4))) 7 eq_refl)
      as (s' & Hexec & _ & Hst & _).
    exists s'. split; [exact Hexec|]. rewrite Hst. vm_compute. reflexivity.
Defined.



(** When every call succeeds and no freshness check is configured, the
    second of the two requests finds the entry the first job has put and
    redirects: one [Put] in all. *)
Example two_requests_one_put_run :
  ∃ s, exec0 two_requests_one_put (init ∅) = Some s ∧
       written <$> threads s =
         [Some (HttpRedirect u_a StatusFound); Some (HttpRedirect u_a StatusFound); None] ∧
       count (is_put_of key_a) (trace s) = 1%nat ∧
       store s !! key_a = Some abc.
Proof.
  exists (state_of (exec0 two_requests_one_put (init ∅))).
  split_and!; vm_compute; reflexivity.
Qed.


(** * Further properties of the handler *)

(** ** The resolver *)

Lemma append_nil_r (s : string) : s ++ EmptyString = s.
Proof. induction s as [|c s IH]; [done|]. by rewrite append_cons, IH. Qed.

Lemma substring_prefix (pre s : string) :
  substring 0 (String.length pre) (pre ++ s) = pre.
Proof.
  induction pre as [|c pre IH]; simpl.
  - by destruct s.
  - by rewrite IH.
Qed.

Section ResolverExtras.
Variable IsValidDomain : string -> bool.
Variable m : MirrorHandler.

(** X2.  With a base domain configured, the host is accepted exactly
    when it ends with the base domain, and what is kept is the host
    without that suffix; without one the host is kept whole. *)
Theorem stripBaseDomain_spec (host : string) :
  match stripBaseDomain m host with
  | Some h => host = h ++ BaseDomain m
  | None => BaseDomain m ≠ EmptyString ∧ ∀ pre, host ≠ pre ++ BaseDomain m
  end.
Proof.
  unfold stripBaseDomain.
  destruct (String.eqb_spec (BaseDomain m) EmptyString) as [E|E]; simpl.
  - by rewrite E, append_nil_r.
  - destruct (strings.HasSuffix host (BaseDomain m)) eqn:Hs; simpl.
    + apply HasSuffix_spec in Hs as [pre ->]. f_equal.
      unfold slice_to. rewrite length_append.
      replace (String.length pre + String.length (BaseDomain m)
               - String.length (BaseDomain m))%nat with (String.length pre) by lia.
      by rewrite substring_prefix.
    + split; [done|]. intros pre ->.
      assert (strings.HasSuffix (pre ++ BaseDomain m) (BaseDomain m) = true) as Ht
        by (apply HasSuffix_spec; eauto).
      congruence.
Qed.

(** X1.  A request that [ServeHTTP] hands on, to the cache path or to
    the direct proxy, is a GET or HEAD whose path has no blocked suffix;
    its URL has scheme https; its host contains a dot and is a valid
    domain, and is the URL's host followed by the base domain; outside
    first-path mode host and path are the request's own; and the cache
    path is taken exactly when both the store and the link function are
    configured. *)
Theorem forwarded_request_shape (r r' : Request) :
  ServeHTTP IsValidDomain m r = ToCache r' ∨ ServeHTTP IsValidDomain m r = ToDirect r' →
  (Method r = "GET" ∨ Method r = "HEAD") ∧
  Method r' = Method r ∧
  existsb (strings.HasSuffix (UPath (RURL r))) (BlockSuffix m) = false ∧
  Scheme (RURL r') = "https" ∧
  strings.Contains (Host r') "." = true ∧
  IsValidDomain (Host r') = true ∧
  Host r' = UHost (RURL r') ++ BaseDomain m ∧
  (HostFromFirstPath m = false →
     Host r' = Host r ∧ UPath (RURL r') = UPath (RURL r)) ∧
  (ServeHTTP IsValidDomain m r = ToCache r' ↔
     RemoteCache m = true ∧ is_Some (RedirectLinks m)).
Proof.
  unfold ServeHTTP.
  destruct (negb (String.eqb (Method r) "GET") && negb (String.eqb (Method r) "HEAD"))
    eqn:Hm; [by intros [|]|].
  destruct (existsb _ _) eqn:Hb; [by intros [|]|].
  destruct (_ || strings.HasSuffix _ _); [by intros [|]|].
  destruct (resolveHostPath m (Host r) (UPath (RURL r))) as [[host path]|] eqn:Hres;
    [|by intros [|]].
  destruct (strings.Contains host ".") eqn:Hdot; [|by intros [|]].
  destruct (IsValidDomain host) eqn:Hval; [|by intros [|]]. simpl.
  pose proof (stripBaseDomain_spec host) as Hstrip.
  destruct (stripBaseDomain m host) as [uhost|]; [|by intros [|]].
  assert (Method r = "GET" ∨ Method r = "HEAD") as Hmeth.
  { apply andb_false_iff in Hm as [Hm|Hm]; apply negb_false_iff, String.eqb_eq in Hm; eauto. }
  assert (HostFromFirstPath m = false → host = Host r ∧ path = UPath (RURL r)) as Hsame.
  { intros Hmode. unfold resolveHostPath in Hres. rewrite Hmode in Hres.
    by injection Hres as <- <-. }
  destruct (RemoteCache m); simpl;
    [destruct (RedirectLinks m) as [links|]; simpl|];
    intros [H|H]; simplify_eq; simpl; split_and!; try done.
  - split; [by intros [=]|]. by intros [_ [? [=]]].
  - split; [by intros [=]|]. by intros [[=] _].
Qed.

(** X3.  The resolver itself answers only with 405, 403 or not-found. *)
Theorem resolver_responses (r : Request) (resp : Response) :
  ServeHTTP IsValidDomain m r = Respond resp →
  resp = HttpError StatusMethodNotAllowed "Method Not Allowed" ∨
  resp = HttpError StatusForbidden "Forbidden" ∨
  resp = NotFoundResponse.
Proof.
  unfold ServeHTTP. repeat case_match; intros [= <-]; eauto.
Qed.

End ResolverExtras.

(** X4.  What [directResponse] hands to the response writer for an
    origin response: the origin's status; every header of the origin
    except Connection and Server; for a method other than GET no body
    and no failure.  For a GET the body is copied from the origin's body,
    cut to the declared length when that is positive: when the client's
    connection fails first, what was written up to there is followed by
    [errorResponse] with the write error; otherwise the whole of it is
    written, followed by [errorResponse] with the error that ended the
    origin's body, unless the body was cut before its end. *)
Theorem direct_response_filters (ErrNotOK_text method : string) (resp : OriginResponse)
    (writeFail : option (nat * error)) :
  let limited :=
    if 0 <? ContentLength resp
    then take (Z.to_nat (ContentLength resp)) (Body resp) else Body resp in
  ∃ header' body' failure,
    directResponseOk ErrNotOK_text method resp writeFail
      = Proxied (StatusCode resp) header' body' failure ∧
    (∀ kv, In kv header' ↔
           In kv (Header resp) ∧ fst kv ≠ "Connection" ∧ fst kv ≠ "Server") ∧
    (method ≠ "GET" → body' = [] ∧ failure = None) ∧
    (method = "GET" →
       (0 < ContentLength resp →
          List.length limited
            = Nat.min (Z.to_nat (ContentLength resp)) (List.length (Body resp))) ∧
       (∀ k e, writeFail = Some (k, e) → (k < List.length limited)%nat →
          body' = take k limited ∧ failure = Some (Error ErrNotOK_text e)) ∧
       ((∀ k e, writeFail = Some (k, e) → (List.length limited ≤ k)%nat) →
          body' = limited ∧
          (0 < ContentLength resp ≤ Z.of_nat (List.length (Body resp)) →
             failure = None) ∧
          (¬ 0 < ContentLength resp ≤ Z.of_nat (List.length (Body resp)) →
             failure = Error ErrNotOK_text <$> BodyErr resp))).
Proof.
  intros limited. unfold directResponseOk, LimitReader, LimitReader_err.
  fold limited.
  destruct (String.eqb method "GET") eqn:Hm.
  - apply String.eqb_eq in Hm.
    destruct (io_Copy limited
                (if 0 <? ContentLength resp
                 then if ContentLength resp <=? Z.of_nat (List.length (Body resp))
                      then None else BodyErr resp
                 else BodyErr resp) writeFail) as [copied err] eqn:Hcopy.
    eexists _, _, _. split; [reflexivity|]. split_and!.
    + intros [k v]. rewrite filter_In. simpl.
      rewrite orb_false_r, negb_true_iff, orb_false_iff, !String.eqb_neq. naive_solver.
    + intros Hne. by destruct Hne.
    + intros _. split_and!.
      * intros Hpos. unfold limited.
        assert ((0 <? ContentLength resp) = true) as -> by lia.
        by rewrite length_take.
      * intros k e -> Hk. unfold io_Copy in Hcopy.
        apply Nat.ltb_lt in Hk. rewrite Hk in Hcopy. by simplify_eq.
      * intros Hfits.
        assert (copied = limited ∧
                err = (if 0 <? ContentLength resp
                       then if ContentLength resp <=? Z.of_nat (List.length (Body resp))
                            then None else BodyErr resp
                       else BodyErr resp)) as [-> ->].
        { unfold io_Copy in Hcopy. destruct writeFail as [[k e]|]; [|by simplify_eq].
          specialize (Hfits k e eq_refl).
          assert ((k <? List.length limited)%nat = false) as Hk by (apply Nat.ltb_ge; lia).
          rewrite Hk in Hcopy. by simplify_eq. }
        split_and!; [done| |].
        -- intros [Hpos Hle].
           assert ((0 <? ContentLength resp) = true) as -> by lia.
           by assert ((ContentLength resp <=? Z.of_nat (List.length (Body resp))) = true)
             as -> by lia.
        -- intros Hnot. destruct (0 <? ContentLength resp) eqn:Hpos; [|done].
           assert ((ContentLength resp <=? Z.of_nat (List.length (Body resp))) = false)
             as -> by lia.
           done.
  - apply String.eqb_neq in Hm.
    eexists _, _, _. split; [reflexivity|]. split_and!.
    + intros [k v]. rewrite filter_In. simpl.
      rewrite orb_false_r, negb_true_iff, orb_false_iff, !String.eqb_neq. naive_solver.
    + done.
    + done.
Qed.

(** An origin that declares three bytes and sends four, proxied to a
    client whose connection breaks after two: the headers without
    Server, two bytes, and the text of the write error. *)
Example direct_response_broken_pipe :
  directResponseOk not_ok_text "GET"
    {| StatusCode := 200;
       Header := [("Server", ["nginx"]); ("Content-Type", ["text/plain"])];
       ContentLength := 3; Body := abcd; BodyErr := None |}
    (Some (2%nat, ErrOther "write: broken pipe"))
  = Proxied 200 [("Content-Type", ["text/plain"])] [x61; x62]%byte
      (Some "write: broken pipe").
Proof. vm_compute. reflexivity. Qed.

(** ** The cache coordinator *)

Section CoordinatorExtras.
Variable IsValidDomain : string -> bool.
Variable path_Join : string -> string -> string.
Variable ErrNotOK_text : string.
Variable m : MirrorHandler.

Abbreviation step2 := (step IsValidDomain path_Join ErrNotOK_text m).
Abbreviation run2 := (run IsValidDomain path_Join ErrNotOK_text m).
Abbreviation exec2 := (exec IsValidDomain path_Join ErrNotOK_text m).
Abbreviation reachable2 := (reachable IsValidDomain path_Join ErrNotOK_text m).





Ltac run_next tac :=
  erewrite exec_cons_run;
  [ | lookup_thread
    | unfold run; cbn [pc at_pc respond redirect ctx written]; tac; reflexivity ].

(** X6.  The handler never removes an object from the store: a step
    either leaves the store as it is, or is the successful [Put] of a
    populate goroutine, which stores the body under the key of its
    request; so a key once present stays present. *)
Theorem store_only_put a s s' :
  step IsValidDomain path_Join ErrNotOK_text m a s = Some s' →
  (store s' = store s ∨
   ∃ (t : tid) th l closeCh errCh body,
     a = Run t PutOk ∧ threads s !! t = Some th ∧
     pc th = JobPut l closeCh errCh body ∧
     store s' = <[l_file l := body]> (store s)) ∧
  ∀ key, is_Some (store s !! key) → is_Some (store s' !! key).
Proof.
  intros Hstep.
  assert (store s' = store s ∨
          ∃ (t : tid) th l closeCh errCh body,
            a = Run t PutOk ∧ threads s !! t = Some th ∧
            pc th = JobPut l closeCh errCh body ∧
            store s' = <[l_file l := body]> (store s)) as H.
  { destruct a as [r|t|t|t io]; simpl in Hstep.
    - injection Hstep as <-. by left.
    - apply end_ctx_Some in Hstep as (th & _ & _ & ->). by left.
    - apply end_ctx_Some in Hstep as (th & _ & _ & ->). by left.
    - destruct (threads s !! t) as [th|] eqn:Ht; [|done]. unfold run in Hstep.
      destruct (pc th) eqn:Hpc; destruct io; try discriminate;
        repeat case_match; simplify_eq; try (by left).
      right. by eexists _, _, _, _, _, _. }
  split; [done|]. intros key Hkey.
  destruct H as [->|(t & th & l & c & e & body & _ & _ & _ & ->)]; [done|].
  rewrite lookup_insert_is_Some'. by right.
Qed.

(** X7.  Every entry of the in-flight map is held by a goroutine that
    has still to delete it, and its channel is allocated and not yet
    closed. *)
Theorem no_orphan_reservation s u closeCh :
  reachable2 s → mut s !! u = Some closeCh →
  (closeCh < next_chan s)%nat ∧ (closeCh ∉ closed s) ∧
  ∃ (t : tid) th, threads s !! t = Some th ∧ reserved (pc th) = Some (u, closeCh).
Proof.
  intros (I1 & I2 & _ & I4 & _)%reachable_Inv Hmut.
  destruct (I2 _ _ Hmut) as (t & o & Hv).
  destruct (I1 _ _ _ _ Hv) as [-> _]. destruct (I4 _ _ _ Hv) as [Hlt Hopen].
  split_and!; [done|done|].
  apply list_lookup_fmap_Some in Hv as (th & Hv & Ht). unfold view in Hv.
  injection Hv as Hres _. by exists t, th.
Qed.

(** X8.  When every goroutine has returned, the in-flight map is
    empty. *)
Theorem quiescent_map_empty s :
  reachable IsValidDomain path_Join ErrNotOK_text m s →
  Forall (λ th, pc th = Returned) (threads s) → mut s = ∅.
Proof.
  intros Hr Hall. apply map_empty. intros u.
  destruct (mut s !! u) as [c|] eqn:Hmut; [|done].
  destruct (no_orphan_reservation _ _ _ Hr Hmut) as (_ & _ & t & th & Ht & Hres).
  rewrite (Forall_lookup_1 _ _ _ _ Hall Ht) in Hres. done.
Qed.

(** X9.  [doneCache] releases: a goroutine about to run it finds its own
    entry in the in-flight map and its channel open; its two statements
    delete the entry and close the channel without a panic, and then no
    goroutine holds the key's reservation. *)
Theorem doneCache_releases s (t : tid) th l closeCh :
  reachable2 s → threads s !! t = Some th → pc th = AtDelete l closeCh →
  mut s !! l_u l = Some closeCh ∧ (closeCh ∉ closed s) ∧
  ∃ s', exec2 [Run t Local; Run t Local] s = Some s' ∧
    threads s' = <[t:={| ctx := ctx th; written := written th; pc := Returned |}]>
                   (threads s) ∧
    mut s' = delete (l_u l) (mut s) ∧
    closed s' = {[closeCh]} ∪ closed s ∧
    trace s' = EvClose t closeCh :: EvDelete t (l_u l) :: trace s ∧
    ∀ t' : tid, ¬ holds_reservation s' t' (l_u l).
Proof.
  intros Hr Ht Hpc. assert (Hlt := lookup_lt_Some _ _ _ Ht).
  pose proof (reachable_Inv _ _ _ _ _ Hr) as (I1 & _ & _ & I4 & _).
  pose proof (view_lookup _ _ _ Ht) as Hv. unfold view in Hv. rewrite Hpc in Hv.
  simpl in Hv. destruct (I1 _ _ _ _ Hv) as [_ Hmut]. destruct (I4 _ _ _ Hv) as [_ Hopen].
  split_and!; [done|done|].
  assert (∃ s', exec2 [Run t Local; Run t Local] s = Some s' ∧
    threads s' = <[t:={| ctx := ctx th; written := written th; pc := Returned |}]>
                   (threads s) ∧
    mut s' = delete (l_u l) (mut s) ∧
    closed s' = {[closeCh]} ∪ closed s ∧
    trace s' = EvClose t closeCh :: EvDelete t (l_u l) :: trace s)
    as (s' & Hexec & Hths & Hmut' & Hcl & Htr).
  { eexists. split.
    - run_next ltac:(rewrite Hpc).
      run_next ltac:(unfold_state; rewrite bool_decide_eq_false_2 by done).
      reflexivity.
    - by norm_threads. }
  exists s'. split_and!; try done.
  intros t' (th' & c & Ht' & Hres).
  pose proof (reachable_exec _ _ _ _ _ _ _ Hr Hexec) as Hr'.
  apply reachable_Inv in Hr' as (I1' & _).
  apply view_lookup in Ht'. unfold view in Ht'. rewrite Hres in Ht'.
  destruct (I1' _ _ _ _ Ht') as [_ Hm]. rewrite Hmut', lookup_delete_eq in Hm. done.
Qed.

(** X10.  Every call to the store or to the origin on the cache path is
    made by a goroutine that holds the reservation of the request's
    redirect target, and is about that request's key or origin URL. *)
Theorem calls_under_reservation a s s' ev :
  step2 a s = Some s' → trace s' = ev :: trace s → is_call ev = true →
  ∃ th l closeCh,
    threads s !! ev_tid ev = Some th ∧ pc_locals (pc th) = Some l ∧
    reserved (pc th) = Some (l_u l, closeCh) ∧ call_of l ev.
Proof.
  intros Hstep Htr Hcall.
  destruct a as [r|t|t|t io]; simpl in Hstep.
  - injection Hstep as <-. simpl in Htr.
    apply (f_equal List.length) in Htr. simpl in Htr. lia.
  - apply end_ctx_Some in Hstep as (th & _ & _ & ->). simpl in Htr.
    apply (f_equal List.length) in Htr. simpl in Htr. lia.
  - apply end_ctx_Some in Hstep as (th & _ & _ & ->). simpl in Htr.
    apply (f_equal List.length) in Htr. simpl in Htr. lia.
  - destruct (threads s !! t) as [th|] eqn:Ht; [|done]. unfold run in Hstep.
    destruct (pc th) eqn:Hpc; destruct io; try discriminate;
      repeat case_match; simplify_eq; revert Htr; unfold_state; intros Htr;
      try (apply (f_equal List.length) in Htr; simpl in Htr; lia);
      simplify_eq; try discriminate Hcall;
      simpl; eexists _, _, _; (split_and!; [done|by rewrite Hpc|by rewrite Hpc|done]).
Qed.

Lemma at_stat_facts s (t : tid) th l closeCh :
  reachable2 s → threads s !! t = Some th → pc th = AtStat l closeCh →
  (closeCh ∉ closed s) ∧ errChs s !! next_chan s = None.
Proof.
  intros Hr Ht Hpc. split.
  - apply reachable_Inv in Hr as (_ & _ & _ & I4 & _).
    apply view_lookup in Ht. unfold view in Ht. rewrite Hpc in Ht.
    by destruct (I4 _ _ _ Ht).
  - apply reachable_Buf in Hr as (_ & _ & B3). by apply B3.
Qed.

(** X11.  A miss whose populate succeeds, run from the [Stat] call to
    the caller's return: the caller is redirected to the cached URL;
    the store holds the fetched body, cut to the declared length when
    that is positive, under the request's key; the reservation is
    deleted and its channel closed by the populate goroutine; the result
    channel is drained; and the calls made are one Stat, one GET and one
    Put. *)
Theorem miss_populates s (t : tid) th l closeCh err contentLength body :
  reachable2 s → threads s !! t = Some th → pc th = AtStat l closeCh →
  errors_Is err Canceled = false → contentLength ≠ 0 →
  let j := List.length (threads s) in
  let stored := if 0 <? contentLength then LimitReader body contentLength else body in
  ∃ s',
    exec2 [Run t (Fails err); Run t Local; Run j (GetOk contentLength body);
           Run j PutOk; Run j Local; Run j Local; Run j Local; Run t OnRecv] s
      = Some s' ∧
    threads s' =
      (<[t:={| ctx := ctx th; written := Some (HttpRedirect (l_u l) StatusFound);
               pc := Returned |}]> (threads s) ++
       [{| ctx := CtxBackground; written := None; pc := Returned |}])%list ∧
    store s' = <[l_file l := stored]> (store s) ∧
    mut s' = delete (l_u l) (mut s) ∧
    closed s' = {[closeCh]} ∪ closed s ∧
    errChs s' = errChs s ∧
    trace s' = EvClose j closeCh :: EvDelete j (l_u l)
               :: EvPut j (l_file l) stored None :: EvGet j (l_url l)
               :: EvStat t (l_file l) :: trace s.
Proof.
  intros Hr Ht Hpc Herr Hcl%Z.eqb_neq j stored.
  assert (Hlt := lookup_lt_Some _ _ _ Ht).
  destruct (at_stat_facts _ _ _ _ _ Hr Ht Hpc) as [Hopen Hempty].
  subst j stored. destruct (0 <? contentLength) eqn:Hpos.
  all: eexists; split;
    [ run_next ltac:(rewrite Hpc, Herr);
      run_next idtac;
      run_next ltac:(unfold cacheFileBody; rewrite Hcl, Hpos);
      run_next idtac;
      run_next ltac:(unfold_state; rewrite Hempty);
      run_next idtac;
      run_next ltac:(unfold_state; rewrite bool_decide_eq_false_2 by done);
      run_next ltac:(unfold_state; rewrite lookup_insert_eq; simpl);
      reflexivity
    | norm_threads; split_and!; try done; by apply delete_insert_id ].
Qed.

(** X12.  A miss whose origin GET fails, run to the caller's return:
    the caller is answered not-found when the error wraps [ErrNotOK] and
    500 with the error's text otherwise; nothing is put and the store is
    unchanged; the reservation is deleted and its channel closed. *)
Theorem populate_get_fails s (t : tid) th l closeCh err geterr :
  reachable2 s → threads s !! t = Some th → pc th = AtStat l closeCh →
  errors_Is err Canceled = false →
  let j := List.length (threads s) in
  let answer :=
    if errors_Is geterr ErrNotOK then NotFoundResponse
    else HttpError StatusInternalServerError (Error ErrNotOK_text geterr) in
  ∃ s',
    exec2 [Run t (Fails err); Run t Local; Run j (Fails geterr);
           Run j Local; Run j Local; Run j Local; Run t OnRecv] s = Some s' ∧
    threads s' =
      (<[t:={| ctx := ctx th; written := Some answer; pc := Returned |}]> (threads s) ++
       [{| ctx := CtxBackground; written := None; pc := Returned |}])%list ∧
    store s' = store s ∧
    mut s' = delete (l_u l) (mut s) ∧
    closed s' = {[closeCh]} ∪ closed s ∧
    trace s' = EvClose j closeCh :: EvDelete j (l_u l) :: EvGet j (l_url l)
               :: EvStat t (l_file l) :: trace s.
Proof.
  intros Hr Ht Hpc Herr j answer.
  assert (Hlt := lookup_lt_Some _ _ _ Ht).
  destruct (at_stat_facts _ _ _ _ _ Hr Ht Hpc) as [Hopen Hempty].
  subst j answer. destruct (errors_Is geterr ErrNotOK) eqn:Hnotok.
  all: eexists; split;
    [ run_next ltac:(rewrite Hpc, Herr);
      run_next idtac;
      run_next idtac;
      run_next ltac:(unfold_state; rewrite Hempty);
      run_next idtac;
      run_next ltac:(unfold_state; rewrite bool_decide_eq_false_2 by done);
      run_next ltac:(unfold_state; rewrite lookup_insert_eq; simpl; rewrite Hnotok);
      reflexivity
    | norm_threads; split_and!; done ].
Qed.

End CoordinatorExtras.

(** ** The further properties on concrete runs *)

Lemma at_delete_reachable :
  reachable any_domain join_clean not_ok_text handler0 at_delete.
Proof.
  exists {[ key_a := abc ]}, (to_stat ++ [Run 0 (StatOk 3)])%list. vm_compute. reflexivity.
Qed.

Lemma at_stat_miss_reachable :
  reachable any_domain join_clean not_ok_text handler0 at_stat_miss.
Proof. exists ∅, to_stat. vm_compute. reflexivity. Qed.

Lemma all_returned_reachable :
  reachable any_domain join_clean not_ok_text handler0 all_returned.
Proof. exists ∅, two_requests_one_put. vm_compute. reflexivity. Qed.

Lemma forwarded_request_shape_witness :
  (ServeHTTP any_domain handler0 (get_request "/example.com/a/b")
     = ToCache {| Method := "GET"; Host := "example.com";
                  RURL := {| Scheme := "https"; UHost := "example.com";
                             UPath := "/a/b" |} |} ∨
   ServeHTTP any_domain handler0 (get_request "/example.com/a/b")
     = ToDirect {| Method := "GET"; Host := "example.com";
                   RURL := {| Scheme := "https"; UHost := "example.com";
                              UPath := "/a/b" |} |}) ∧
  "example.com" = "example.com" ++ BaseDomain handler0.
Proof.
  assert (H : ServeHTTP any_domain handler0 (get_request "/example.com/a/b")
     = ToCache {| Method := "GET"; Host := "example.com";
                  RURL := {| Scheme := "https"; UHost := "example.com";
                             UPath := "/a/b" |} |} ∨
   ServeHTTP any_domain handler0 (get_request "/example.com/a/b")
     = ToDirect {| Method := "GET"; Host := "example.com";
                   RURL := {| Scheme := "https"; UHost := "example.com";
                              UPath := "/a/b" |} |})
    by (left; vm_compute; reflexivity).
  split; [exact H|].
  exact (proj1 (proj2 (proj2 (proj2 (proj2 (proj2 (proj2
           (forwarded_request_shape any_domain handler0 _ _ H)))))))).
Defined.

Lemma resolver_responses_witness :
  ServeHTTP any_domain handler0 (get_request "/onlyhost") = Respond NotFoundResponse ∧
  (NotFoundResponse = HttpError StatusMethodNotAllowed "Method Not Allowed" ∨
   NotFoundResponse = HttpError StatusForbidden "Forbidden" ∨
   NotFoundResponse = NotFoundResponse).
Proof.
  assert (H : ServeHTTP any_domain handler0 (get_request "/onlyhost")
              = Respond NotFoundResponse) by (vm_compute; reflexivity).
  split; [exact H|].
  exact (resolver_responses any_domain handler0 _ _ H).
Defined.



Lemma store_only_put_witness :
  step any_domain join_clean not_ok_text handler0 (Run 1 PutOk) at_put = Some after_put ∧
  ∀ key, is_Some (store at_put !! key) → is_Some (store after_put !! key).
Proof.
  assert (H : step any_domain join_clean not_ok_text handler0 (Run 1 PutOk) at_put
              = Some after_put) by (vm_compute; reflexivity).
  split; [exact H|].
  exact (proj2 (store_only_put any_domain join_clean not_ok_text handler0 _ _ _ H)).
Defined.

Lemma no_orphan_reservation_witness :
  reachable any_domain join_clean not_ok_text handler0 at_populate ∧
  mut at_populate !! u_a = Some 0%nat ∧
  (0 < next_chan at_populate)%nat ∧ (0%nat ∉ closed at_populate) ∧
  ∃ (t : tid) th, threads at_populate !! t = Some th ∧
                  reserved (pc th) = Some (u_a, 0%nat).
Proof.
  assert (H : mut at_populate !! u_a = Some 0%nat) by (vm_compute; reflexivity).
  split_and!; [exact at_populate_reachable|exact H|..];
    apply (no_orphan_reservation any_domain join_clean not_ok_text handler0
             at_populate u_a 0%nat at_populate_reachable H).
Defined.

Lemma quiescent_map_empty_witness :
  reachable any_domain join_clean not_ok_text handler0 all_returned ∧
  Forall (λ th, pc th = Returned) (threads all_returned) ∧
  mut all_returned = ∅.
Proof.
  assert (H : Forall (λ th, pc th = Returned) (threads all_returned)).
  { assert (threads all_returned =
            [{| ctx := CtxLive; written := Some (HttpRedirect u_a StatusFound);
                pc := Returned |};
             {| ctx := CtxLive; written := Some (HttpRedirect u_a StatusFound);
                pc := Returned |};
             {| ctx := CtxBackground; written := None; pc := Returned |}]) as ->
      by (vm_compute; reflexivity).
    repeat constructor. }
  split_and!; [exact all_returned_reachable|exact H|].
  exact (quiescent_map_empty any_domain join_clean not_ok_text handler0
           all_returned all_returned_reachable H).
Defined.

Lemma doneCache_releases_witness :
  reachable any_domain join_clean not_ok_text handler0 at_delete ∧
  threads at_delete !! 0%nat = Some delete_thread ∧
  pc delete_thread = AtDelete locals_a 0 ∧
  mut at_delete !! u_a = Some 0%nat ∧
  ∃ s', exec0 [Run 0 Local; Run 0 Local] at_delete = Some s' ∧
        mut s' = delete u_a (mut at_delete) ∧
        closed s' = {[0%nat]} ∪ closed at_delete.
Proof.
  assert (H : threads at_delete !! 0%nat = Some delete_thread)
    by (vm_compute; reflexivity).
  assert (H' : pc delete_thread = AtDelete locals_a 0) by reflexivity.
  destruct (doneCache_releases any_domain join_clean not_ok_text handler0
              at_delete 0%nat delete_thread locals_a 0%nat at_delete_reachable H H')
    as (Hmut & _ & s' & Hexec & _ & Hmut' & Hcl & _).
  split_and!; [exact at_delete_reachable|exact H|exact H'|exact Hmut|].
  exists s'. split_and!; [exact Hexec|exact Hmut'|exact Hcl].
Defined.

Lemma calls_under_reservation_witness :
  step any_domain join_clean not_ok_text handler0 (Run 1 PutOk) at_put = Some after_put ∧
  trace after_put = EvPut 1 key_a abc None :: trace at_put ∧
  is_call (EvPut 1 key_a abc None) = true ∧
  ∃ th l closeCh,
    threads at_put !! 1%nat = Some th ∧ pc_locals (pc th) = Some l ∧
    reserved (pc th) = Some (l_u l, closeCh) ∧ key_a = l_file l.
Proof.
  assert (H1 : step any_domain join_clean not_ok_text handler0 (Run 1 PutOk) at_put
               = Some after_put) by (vm_compute; reflexivity).
  assert (H2 : trace after_put = EvPut 1 key_a abc None :: trace at_put)
    by (vm_compute; reflexivity).
  assert (H3 : is_call (EvPut 1 key_a abc None) = true) by reflexivity.
  split_and!; [exact H1|exact H2|exact H3|].
  exact (calls_under_reservation any_domain join_clean not_ok_text handler0
           _ _ _ _ H1 H2 H3).
Defined.

Lemma miss_populates_witness :
  reachable any_domain join_clean not_ok_text handler0 at_stat_miss ∧
  threads at_stat_miss !! 0%nat = Some stat_thread ∧
  pc stat_thread = AtStat locals_a 0 ∧
  errors_Is (ErrOther "not found") Canceled = false ∧
  3 ≠ 0 ∧
  ∃ s', exec0 [Run 0 (Fails (ErrOther "not found")); Run 0 Local;
               Run 1 (GetOk 3 abcd); Run 1 PutOk; Run 1 Local; Run 1 Local;
               Run 1 Local; Run 0 OnRecv] at_stat_miss = Some s' ∧
        store s' = <[key_a := abc]> (store at_stat_miss) ∧
        mut s' = delete u_a (mut at_stat_miss).
Proof.
  assert (H1 : threads at_stat_miss !! 0%nat = Some stat_thread)
    by (vm_compute; reflexivity).
  assert (H2 : pc stat_thread = AtStat locals_a 0) by reflexivity.
  assert (H3 : errors_Is (ErrOther "not found") Canceled = false) by reflexivity.
  assert (H4 : 3 ≠ 0) by discriminate.
  split_and!; [exact at_stat_miss_reachable|exact H1|exact H2|exact H3|exact H4|].
  destruct (miss_populates any_domain join_clean not_ok_text handler0
              at_stat_miss 0%nat stat_thread locals_a 0%nat (ErrOther "not found")
              3 abcd at_stat_miss_reachable H1 H2 H3 H4)
    as (s' & Hexec & _ & Hstore & Hmut & _).
  exists s'. split_and!; [|exact Hstore|exact Hmut].
  replace (List.length (threads at_stat_miss)) with 1%nat in Hexec
    by (vm_compute; reflexivity).
  exact Hexec.
Defined.

Lemma populate_get_fails_witness :
  reachable any_domain join_clean not_ok_text handler0 at_stat_miss ∧
  threads at_stat_miss !! 0%nat = Some stat_thread ∧
  pc stat_thread = AtStat locals_a 0 ∧
  errors_Is (ErrOther "not found") Canceled = false ∧
  ∃ s', exec0 [Run 0 (Fails (ErrOther "not found")); Run 0 Local;
               Run 1 (Fails (ErrOther "dial tcp: timeout"));
               Run 1 Local; Run 1 Local; Run 1 Local; Run 0 OnRecv] at_stat_miss
          = Some s' ∧
        store s' = store at_stat_miss ∧
        threads s' !! 0%nat =
          Some {| ctx := CtxLive;
                  written := Some (HttpError StatusInternalServerError "dial tcp: timeout");
                  pc := Returned |}.
Proof.
  assert (H1 : threads at_stat_miss !! 0%nat = Some stat_thread)
    by (vm_compute; reflexivity).
  assert (H2 : pc stat_thread = AtStat locals_a 0) by reflexivity.
  assert (H3 : errors_Is (ErrOther "not found") Canceled = false) by reflexivity.
  split_and!; [exact at_stat_miss_reachable|exact H1|exact H2|exact H3|].
  destruct (populate_get_fails any_domain join_clean not_ok_text handler0
              at_stat_miss 0%nat stat_thread locals_a 0%nat (ErrOther "not found")
              (ErrOther "dial tcp: timeout") at_stat_miss_reachable H1 H2 H3)
    as (s' & Hexec & Hths & Hstore & _).
  exists s'. split_and!; [|exact Hstore|].
  - replace (List.length (threads at_stat_miss)) with 1%nat in Hexec
      by (vm_compute; reflexivity).
    exact Hexec.
  - rewrite Hths. vm_compute. reflexivity.
Defined.
